(** * HorioHop: itinerary acquisition pipeline

    A shallow embedding of the client-side core of HorioHop:
    - [Polyline]     the geometry codec            (src/lib/polyline.ts)
    - [Routing]      the Motis routing client      (src/lib/routing.ts)
    - [Demand]       the localStorage demand ledger (src/lib/demand.ts)
    - [Orchestrator] the state held by AppProvider (src/context/AppContext.tsx)
    and of what the interface builds on them (demo data, the demand counts
    on screen, the drawing of a leg, the route cards, the data view).

    Conventions shared by all modules.
    - A JavaScript number is a rational ([Q]). Where the program floors a
      product, the product is rounded to the nearest double first
      ([Double]); the sums and products of the data view are exact, as
      they are in JavaScript on whole numbers below 2^53.
    - A [Date] is its time value, an integer count of milliseconds since
      the epoch, or the invalid date (time value NaN). Calendar arithmetic
      on a date goes through the local time zone of the browser.
    - A JavaScript string is a [string]; [codeUnits] gives its code units.
    - An object used as a dictionary is a [gmap] of its own properties,
      read and written through [PlainObject], which knows the properties
      every object inherits from [Object.prototype]. *)

From Stdlib Require Import ZArith QArith String List Lia Bool.
From Stdlib Require Import Qround Qpower DecimalString Lqa.
From stdpp Require Import gmap strings list fin_maps.
Import ListNotations.

#[local] Open Scope Z_scope.

(** ** Completions

    A JavaScript call either returns a value or throws; an [async] function
    resolves or rejects. Both are a [Completion]. *)

Inductive Completion (A : Type) : Type :=
| Returned (a : A)
| Thrown (message : string).

Arguments Returned {A} a.
Arguments Thrown {A} message.

Definition bindC {A B : Type} (c : Completion A) (k : A -> Completion B) : Completion B :=
  match c with
  | Returned a => k a
  | Thrown m => Thrown m
  end.

(** [try { body } catch (error) { handler(error.message) }] *)
Definition tryCatch {A : Type} (body : Completion A) (handler : string -> Completion A) : Completion A :=
  match body with
  | Returned a => Returned a
  | Thrown m => handler m
  end.

Fixpoint mapC {A B : Type} (f : A -> Completion B) (l : list A) : Completion (list B) :=
  match l with
  | [] => Returned []
  | x :: rest =>
      bindC (f x) (fun y => bindC (mapC f rest) (fun ys => Returned (y :: ys)))
  end.

Definition isReturned {A : Type} (c : Completion A) : bool :=
  match c with Returned _ => true | Thrown _ => false end.

(** [list.forEach] with a callback that updates [a] and may throw. *)
Fixpoint foldC {A B : Type} (f : A -> B -> Completion A) (l : list B) (a : A) : Completion A :=
  match l with
  | [] => Returned a
  | x :: rest => bindC (f a x) (foldC f rest)
  end.

(** Code units of a string (what [charCodeAt] reads). *)
Definition codeUnits (s : string) : list Z :=
  List.map (fun c => Z.of_nat (Ascii.nat_of_ascii c)) (list_ascii_of_string s).

(** ** Geometry codec: polyline.ts *)

Module Polyline.

(** [ToInt32] of an integral number: wrap to signed 32 bits. *)
Definition ToInt32 (z : Z) : Z := (z + 2 ^ 31) mod 2 ^ 32 - 2 ^ 31.

(** A number that may be NaN: [charCodeAt] past the end of the string
    gives NaN, and so does NaN - 63. *)
Definition charCodeAt (encoded : list Z) (index : nat) : option Z :=
  nth_error encoded index.

Definition minus63 (c : option Z) : option Z :=
  match c with Some n => Some (n - 63) | None => None end.

(** [byte & mask]: NaN is converted to 0 by ToInt32. *)
Definition bitAnd (byte : option Z) (mask : Z) : Z :=
  match byte with
  | Some b => Z.land (ToInt32 b) mask
  | None => 0
  end.

(** [x << shift] on int32: the shift count is taken modulo 32. *)
Definition shiftLeft (x shift : Z) : Z := ToInt32 (Z.shiftl (ToInt32 x) (shift mod 32)).

Definition bitOr (x y : Z) : Z := ToInt32 (Z.lor (ToInt32 x) (ToInt32 y)).

(** [byte >= 0x20]: false on NaN. *)
Definition geq (byte : option Z) (n : Z) : bool :=
  match byte with
  | Some b => n <=? b
  | None => false
  end.

(** [result & 1 ? ~(result >> 1) : result >> 1] *)
Definition zigzag (result : Z) : Z :=
  if Z.eqb (Z.land result 1) 0 then Z.shiftr result 1 else Z.lnot (Z.shiftr result 1).

(** The inner [do { ... } while (byte >= 0x20)] loop. One unit of fuel is
    one iteration; [None] means the fuel ran out before the loop ended.
    Returns the index after the group and the accumulated [result]. *)
Fixpoint readGroup (fuel : nat) (encoded : list Z) (index : nat) (shift result : Z)
  : option (nat * Z) :=
  match fuel with
  | O => None
  | S fuel' =>
      let byte := minus63 (charCodeAt encoded index) in
      let index := S index in
      let result := bitOr result (shiftLeft (bitAnd byte 31) shift) in
      let shift := shift + 5 in
      if geq byte 32 then readGroup fuel' encoded index shift result
      else Some (index, result)
  end.

Definition point : Type := Q * Q.

(** [[lat / 1e5, lng / 1e5]] *)
Definition toDegrees (lat lng : Z) : point :=
  (Qdiv (inject_Z lat) (inject_Z 100000), Qdiv (inject_Z lng) (inject_Z 100000)).

(** The outer [while (index < encoded.length)] loop, with the loop
    variables [index], [lat], [lng] and [points] as arguments. The running
    sums are integers (exact in JavaScript below 2^53). *)
Fixpoint decodeLoop (fuel : nat) (encoded : list Z) (index : nat) (lat lng : Z)
  (points : list point) : option (list point) :=
  match fuel with
  | O => None
  | S fuel' =>
      if Nat.ltb index (List.length encoded) then
        match readGroup fuel' encoded index 0 0 with
        | None => None
        | Some (index, result) =>
            let lat := lat + zigzag result in
            match readGroup fuel' encoded index 0 0 with
            | None => None
            | Some (index, result) =>
                let lng := lng + zigzag result in
                decodeLoop fuel' encoded index lat lng (points ++ [toDegrees lat lng])
            end
        end
      else Some points
  end.

(** Iterations that are always enough: every iteration of either loop
    advances [index], and no loop is entered past [encoded.length + 1]. *)
Definition enoughFuel (encoded : list Z) : nat := List.length encoded + 2.

Definition decodePolyline (encoded : list Z) : list point :=
  match decodeLoop (enoughFuel encoded) encoded 0 0 0 [] with
  | Some points => points
  | None => []
  end.

(** Two points with the same coordinates as rationals. *)
Definition samePoint (p q : point) : Prop := fst p == fst q /\ snd p == snd q.

End Polyline.

(** ** Parsed JSON and the JavaScript operations the routing client applies to it *)

Module Json.

(** What [response.json()] and [JSON.parse] produce. *)
#[warnings="-register-all"]
Inductive value : Type :=
| JNull
| JBool (b : bool)
| JNum (n : Q)
| JStr (s : string)
| JArr (items : list value)
| JObj (members : list (string * value)).

(** A value or [undefined] ([None]). *)
Definition jsval : Type := option value.

(** ToBoolean: [undefined], [null], [false], [0] and the empty string are
    falsy (NaN does not occur in JSON). *)
Definition truthy (v : jsval) : bool :=
  match v with
  | None => false
  | Some JNull => false
  | Some (JBool b) => b
  | Some (JNum n) => negb (Qeq_bool n 0)
  | Some (JStr s) => negb (String.eqb s EmptyString)
  | Some (JArr _) => true
  | Some (JObj _) => true
  end.

Fixpoint lookupMember (key : string) (members : list (string * value)) : jsval :=
  match members with
  | [] => None
  | (k, v) :: rest => if String.eqb k key then Some v else lookupMember key rest
  end.

(** [v.key] for the keys the routing client reads (none of them is an own
    or inherited property of a string, number, boolean or array): a
    TypeError on [null] and [undefined], [undefined] on a primitive. *)
Definition getProp (v : jsval) (key : string) : Completion jsval :=
  match v with
  | None => Thrown "TypeError: Cannot read properties of undefined"
  | Some JNull => Thrown "TypeError: Cannot read properties of null"
  | Some (JObj members) => Returned (lookupMember key members)
  | Some _ => Returned None
  end.

(** [v?.key] *)
Definition getPropOpt (v : jsval) (key : string) : jsval :=
  match v with
  | Some (JObj members) => lookupMember key members
  | _ => None
  end.

(** [a || b] with a defined right operand. *)
Definition orElse (a : jsval) (b : value) : value :=
  match a with
  | Some v => if truthy a then v else b
  | None => b
  end.

(** [v.map(f)]: only an array has [map]. *)
Definition arrayMap {B : Type} (f : value -> Completion B) (v : jsval) : Completion (list B) :=
  match v with
  | Some (JArr items) => mapC f items
  | Some JNull | None => Thrown "TypeError: Cannot read properties"
  | Some _ => Thrown "TypeError: map is not a function"
  end.

End Json.

Record LatLng : Type := { lat : Q; lng : Q }.

(** A value at type [LatLng]: an object with [lat] and [lng], or a member
    of [Object.prototype], which a dictionary of coordinates gives for its
    name and on which [lat] and [lng] are [undefined]. *)
Inductive Position : Type :=
| Coords (position : LatLng)
| Member (name : string).

Coercion Coords : LatLng >-> Position.

(** A [Date] by its time value; [None] is the invalid date. *)
Definition Date : Type := option Z.

(** [date.toISOString()], by the instant the string denotes: a RangeError
    on the invalid date. *)
Definition toISOString (date : Date) : Completion Z :=
  match date with
  | Some t => Returned t
  | None => Thrown "RangeError: Invalid time value"
  end.

(** ** Plain objects used as dictionaries *)

Module PlainObject.

(** The names of the properties of [Object.prototype]: a plain object has
    each of them without having it as its own. *)
Definition prototypeNames : list string :=
  ["constructor"; "__defineGetter__"; "__defineSetter__"; "hasOwnProperty";
   "__lookupGetter__"; "__lookupSetter__"; "isPrototypeOf"; "propertyIsEnumerable";
   "toString"; "valueOf"; "__proto__"; "toLocaleString"].

Definition inherited (key : string) : bool := existsb (String.eqb key) prototypeNames.

(** What [obj[key]] reads: an own property, a member of [Object.prototype]
    (a function, or the prototype itself for [__proto__]: truthy, and not a
    number), or [undefined]. *)
Inductive Slot (A : Type) : Type :=
| Own (a : A)
| Inherited (key : string)
| Undefined.

Arguments Own {A} a.
Arguments Inherited {A} key.
Arguments Undefined {A}.

Definition get {A : Type} (obj : gmap string A) (key : string) : Slot A :=
  match obj !! key with
  | Some a => Own a
  | None => if inherited key then Inherited key else Undefined
  end.

(** [obj[key] = v] for a [v] that is a number or a string: an own property
    is created or updated, except for the key [__proto__] on an object
    without such an own property, where the inherited setter drops a value
    that is not an object. *)
Definition assign {A : Type} (obj : gmap string A) (key : string) (a : A) : gmap string A :=
  match obj !! key with
  | Some _ => <[key := a]> obj
  | None => if String.eqb key "__proto__" then obj else <[key := a]> obj
  end.

(** [{ ...obj, [key]: v }]: the own properties are copied, and the
    computed key defines an own property, whatever its name. *)
Definition define {A : Type} (obj : gmap string A) (key : string) (a : A) : gmap string A :=
  <[key := a]> obj.

(** The string that [+] makes of an inherited member; the text of a
    built-in function is the one of V8 and JavaScriptCore. *)
Definition memberText (key : string) : string :=
  if String.eqb key "__proto__" then "[object Object]"
  else ("function " ++ (if String.eqb key "constructor" then "Object" else key)
        ++ "() { [native code] }")%string.

End PlainObject.

(** ** Doubles: rounding a product before it is floored *)

Module Double.

(** 2^k as a rational, for k of either sign. *)
Definition pow2 (k : Z) : Q := Qpower 2 k.

(** The nearest integer, a tie going to the even one. *)
Definition nearestEven (q : Q) : Z :=
  let f := Qfloor q in
  match (q - inject_Z f ?= 1 # 2)%Q with
  | Lt => f
  | Gt => f + 1
  | Eq => if Z.even f then f else f + 1
  end.

(** The exponent of the unit in the last place of the doubles around a
    number that is not negative: 52 below the exponent of its leading
    bit, and never below that of the subnormal numbers. *)
Definition ulpExponent (q : Q) : Z :=
  Z.max (Z.log2 (Qfloor (q * pow2 1074)) - 1074 - 52) (-1074).

(** The double nearest to a number that is not negative (binary64, ties
    to even). Overflow is not represented: what is rounded here is far
    below 2^1024. *)
Definition roundNearest (q : Q) : Q :=
  (inject_Z (nearestEven (q / pow2 (ulpExponent q))) * pow2 (ulpExponent q))%Q.

(** The double at least 0 and below 1 with the given bits: 52 bits of
    fraction under a biased exponent of 0 to 1022. Every such double has
    this form. *)
Definition unitDouble (bits : Z) : Q :=
  let fraction := bits mod 2 ^ 52 in
  let exponent := (bits / 2 ^ 52) mod 1023 in
  if exponent =? 0 then (inject_Z fraction * pow2 (-1074))%Q
  else (inject_Z (2 ^ 52 + fraction) * pow2 (exponent - 1075))%Q.

(** [Math.floor(x * n)] for doubles [x] and [n] that are not negative. *)
Definition floorOfProduct (x n : Q) : Z := Qfloor (roundNearest (x * n)).

End Double.

(** ** Routing client: routing.ts *)

Module Routing.
Import Json.

Inductive Mode : Type := WALK | TRANSIT.

Record Place : Type := {
  name : value;
  placeLat : value;
  placeLng : value;
  stopId : jsval
}.

Record Leg : Type := {
  mode : Mode;
  from : Place;
  to : Place;
  departureTime : value;
  arrivalTime : value;
  legDuration : value;
  distance : jsval;
  routeShortName : jsval;
  routeLongName : jsval;
  agencyName : jsval;
  headsign : jsval;
  polyline : list Polyline.point
}.

Record Itinerary : Type := {
  duration : value;
  startTime : value;
  endTime : value;
  walkDistance : value;
  transfers : value;
  legs : list Leg
}.

Section UncheckedCast.

(** Whether [0 < v] holds or throws, for a [v] that is a string, an array
    or an object: the comparison goes through ToPrimitive and ToNumber,
    which are left to the environment. Only a geometry whose [points] is an
    object with a [length] member of such a type reaches it. *)
Variable positive : value -> bool.

(** [decodePolyline(points)] on a truthy value. Nothing checks that
    [points] is a string: on another value [encoded.length] is
    [undefined] or a foreign value, and a loop that is entered fails on
    [encoded.charCodeAt]. *)
Definition decodePolylineOf (points : value) : Completion (list Polyline.point) :=
  match points with
  | JStr s => Returned (Polyline.decodePolyline (codeUnits s))
  | JNull | JBool _ | JNum _ | JArr [] => Returned []
  | JArr (_ :: _) => Thrown "TypeError: encoded.charCodeAt is not a function"
  | JObj members =>
      let entered :=
        match lookupMember "length" members with
        | None | Some JNull => false
        | Some (JBool b) => b
        | Some (JNum n) => negb (Qle_bool n 0)
        | Some v => positive v
        end in
      if entered then Thrown "TypeError: encoded.charCodeAt is not a function"
      else Returned []
  end.

(** [rawLeg.legGeometry?.points] of a leg that is not [null]. *)
Definition geometryOf (leg : value) : jsval :=
  getPropOpt (getPropOpt (Some leg) "legGeometry") "points".

Definition parsePlace (rawPlace : jsval) : Place :=
  {| name := orElse (getPropOpt rawPlace "name") (JStr "Unknown");
     placeLat := orElse (getPropOpt rawPlace "lat") (JNum 0);
     placeLng := orElse (getPropOpt rawPlace "lon") (JNum 0);
     stopId := getPropOpt rawPlace "stopId" |}.

(** The callback of [rawItinerary.legs.map]. *)
Definition parseLeg (leg : value) : Completion Leg :=
  let rawLeg := Some leg in
  bindC (getProp rawLeg "mode") (fun rawMode =>
  bindC (getProp rawLeg "from") (fun rawFrom =>
  bindC (getProp rawLeg "to") (fun rawTo =>
  bindC (getProp rawLeg "startTime") (fun rawStart =>
  bindC (getProp rawLeg "departureTime") (fun rawDeparture =>
  bindC (getProp rawLeg "endTime") (fun rawEnd =>
  bindC (getProp rawLeg "arrivalTime") (fun rawArrival =>
  bindC (getProp rawLeg "duration") (fun rawDuration =>
  bindC (getProp rawLeg "distance") (fun rawDistance =>
  bindC (getProp rawLeg "routeShortName") (fun rawShort =>
  bindC (getProp rawLeg "routeLongName") (fun rawLong =>
  bindC (getProp rawLeg "agencyName") (fun rawAgency =>
  bindC (getProp rawLeg "headsign") (fun rawHeadsign =>
  bindC (getProp rawLeg "legGeometry") (fun rawGeometry =>
  bindC (match getPropOpt rawGeometry "points" with
         | Some points =>
             if truthy (Some points) then decodePolylineOf points else Returned []
         | None => Returned []
         end) (fun decoded =>
  Returned
    {| mode := match rawMode with Some (JStr "WALK") => WALK | _ => TRANSIT end;
       from := parsePlace rawFrom;
       to := parsePlace rawTo;
       departureTime := orElse rawStart (orElse rawDeparture (JStr EmptyString));
       arrivalTime := orElse rawEnd (orElse rawArrival (JStr EmptyString));
       legDuration := orElse rawDuration (JNum 0);
       distance := rawDistance;
       routeShortName := rawShort;
       routeLongName := rawLong;
       agencyName := rawAgency;
       headsign := rawHeadsign;
       polyline := decoded |}))))))))))))))).

(** [legs.filter((l) => l.mode !== 'WALK').length] *)
Definition transitLegs (legs : list Leg) : nat :=
  List.length (List.filter (fun l => match mode l with WALK => false | TRANSIT => true end) legs).

(** [Math.max(0, n - 1)] *)
Definition derivedTransfers (legs : list Leg) : value :=
  JNum (inject_Z (Z.max 0 (Z.of_nat (transitLegs legs) - 1))).

Definition parseItinerary (raw : value) : Completion Itinerary :=
  let rawItinerary := Some raw in
  bindC (getProp rawItinerary "legs") (fun rawLegs =>
  bindC (arrayMap parseLeg rawLegs) (fun legs =>
  bindC (getProp rawItinerary "duration") (fun rawDuration =>
  bindC (getProp rawItinerary "startTime") (fun rawStart =>
  bindC (getProp rawItinerary "endTime") (fun rawEnd =>
  bindC (getProp rawItinerary "walkDistance") (fun rawWalk =>
  bindC (getProp rawItinerary "transfers") (fun rawTransfers =>
  Returned
    {| duration := orElse rawDuration (JNum 0);
       startTime := orElse rawStart (JStr EmptyString);
       endTime := orElse rawEnd (JStr EmptyString);
       walkDistance := orElse rawWalk (JNum 0);
       transfers := orElse rawTransfers (derivedTransfers legs);
       legs := legs |}))))))).

(** *** The HTTP boundary *)

(** [`${place.lat},${place.lng}`], by the coordinates the text holds:
    [None] is the text "undefined,undefined". *)
Definition placeText (place : Position) : option LatLng :=
  match place with
  | Coords position => Some position
  | Member _ => None
  end.

(** The query of [/api/v2/plan]; [time] is the instant its ISO string
    denotes. *)
Record PlanQuery : Type := {
  fromPlace : option LatLng;
  toPlace : option LatLng;
  time : Z;
  arriveBy : bool;
  numItineraries : Z;
  pedestrianProfile : string;
  detailed : bool
}.

(** The body of a response: text that [response.json()] rejects, or the
    value it parses to. *)
Inductive Body : Type :=
| InvalidJson
| JsonBody (data : value).

Record Response : Type := { status : Z; body : Body }.

(** [response.ok] *)
Definition ok (response : Response) : bool :=
  (200 <=? status response) && (status response <=? 299).

(** What [fetch(url)] settles to. *)
Inductive FetchOutcome : Type :=
| NetworkFailure (message : string)
| Responded (response : Response).

Definition awaitFetch (o : FetchOutcome) : Completion Response :=
  match o with
  | NetworkFailure message => Thrown message
  | Responded response => Returned response
  end.

Definition json (response : Response) : Completion value :=
  match body response with
  | InvalidJson => Thrown "SyntaxError: Unexpected token"
  | JsonBody data => Returned data
  end.

(** [message.includes(needle)] *)
Fixpoint includes (message needle : string) : bool :=
  String.prefix needle message ||
  match message with
  | EmptyString => false
  | String _ rest => includes rest needle
  end.

Definition planParams (from to : Position) (time : Z) : PlanQuery :=
  {| fromPlace := placeText from; toPlace := placeText to; time := time;
     arriveBy := false; numItineraries := 5;
     pedestrianProfile := "FOOT"; detailed := true |}.

(** [planJourney]; [fetch] is the routing engine seen through HTTP. The
    result is the completion of the returned promise. The parameters are
    built before the [try] block is entered, so what [toISOString] throws
    rejects the promise. Logging is left out. *)
Definition planJourney (fetch : PlanQuery -> FetchOutcome)
  (from to : Position) (departureTime : Date) : Completion (list Itinerary) :=
  bindC (toISOString departureTime) (fun time =>
  let params := planParams from to time in
  tryCatch
    (bindC (awaitFetch (fetch params)) (fun response =>
       if negb (ok response) then
         if status response =? 404 then Returned []
         else Thrown "Motis API error"
       else
         bindC (json response) (fun data =>
         bindC (getProp (Some data) "itineraries") (fun itineraries =>
           if negb (truthy itineraries) then Returned []
           else arrayMap parseItinerary itineraries))))
    (fun message =>
       if includes message "Failed to fetch" then Returned [] else Returned [])).

End UncheckedCast.

End Routing.

(** ** Demand ledger: demand.ts *)

Module Demand.
Import Json PlainObject.

Definition STORAGE_KEY : string := "horiohop_demands".

(** [createdAt] holds the instant that the stored ISO string denotes. *)
Record DemandRecord : Type := {
  id : string;
  villageId : string;
  originCity : string;
  desiredDate : string;
  partySize : Q;
  email : option string;
  createdAt : Z
}.

(** [Omit<DemandRecord, 'id' | 'createdAt'>] *)
Record DemandInput : Type := {
  inVillageId : string;
  inOriginCity : string;
  inDesiredDate : string;
  inPartySize : Q;
  inEmail : option string
}.

(** A parsed JSON value that is not an array. *)
Inductive Foreign : Type :=
| FNull
| FBool (b : bool)
| FNum (n : Q)
| FStr (s : string)
| FObj (members : list (string * value)).

(** The text kept under a key of [localStorage], by what [JSON.parse]
    makes of it: an array, taken at the type the module gives it
    ([DemandRecord[]], as every write of the module produces); a value
    that is not an array; or text that [JSON.parse] rejects (the empty
    text, which is falsy and never parsed, reads the same). *)
Inductive StoredText : Type :=
| Serialized (demands : list DemandRecord)
| OtherJson (parsed : Foreign)
| Unparseable.

(** What a call reads from the browser: the clock, the value of
    [crypto.randomUUID()] (the page runs in a secure context, where it
    exists), whether the storage quota admits a write, and the local time
    zone as ECMAScript's LocalTZA: the offset of local time from UTC in
    milliseconds at an instant [t], which is a UTC time value when the
    flag is set and a local one otherwise. The storage itself is
    accessible: [getItem] and [removeItem] do not throw. *)
Record Env : Type := {
  now : Z;
  randomUUID : string;
  quotaAdmits : StoredText -> bool;
  localTZA : Z -> bool -> Z
}.

(** Calls run against [localStorage] and may throw; the store survives a
    throw. *)
Definition M (A : Type) : Type :=
  Env -> gmap string StoredText -> Completion A * gmap string StoredText.

Definition ret {A : Type} (a : A) : M A := fun _ store => (Returned a, store).

Definition throw {A : Type} (message : string) : M A :=
  fun _ store => (Thrown message, store).

Definition lift {A : Type} (c : Completion A) : M A := fun _ store => (c, store).

Definition bind {A B : Type} (m : M A) (k : A -> M B) : M B :=
  fun env store =>
    match m env store with
    | (Returned a, store') => k a env store'
    | (Thrown message, store') => (Thrown message, store')
    end.

Definition try_catch {A : Type} (body : M A) (handler : string -> M A) : M A :=
  fun env store =>
    match body env store with
    | (Returned a, store') => (Returned a, store')
    | (Thrown message, store') => handler message env store'
    end.

Definition ask : M Env := fun env store => (Returned env, store).

Definition getItem (key : string) : M (option StoredText) :=
  fun _ store => (Returned (store !! key), store).

(** [setItem] throws QuotaExceededError and leaves the store as it was
    when the quota does not admit the write. *)
Definition setItem (key : string) (text : StoredText) : M unit :=
  fun env store =>
    if quotaAdmits env text then (Returned tt, <[key := text]> store)
    else (Thrown "QuotaExceededError", store).

Definition removeItem (key : string) : M unit :=
  fun _ store => (Returned tt, delete key store).

Notation "x <- m ;; k" := (bind m (fun x => k))
  (at level 100, m at next level, right associativity).
Notation "m ;;; k" := (bind m (fun _ => k))
  (at level 100, right associativity).

(** What [getDemands] hands to its callers at type [DemandRecord[]]: the
    parsed array, or whatever else the text parsed to. *)
Inductive Demands : Type :=
| Records (demands : list DemandRecord)
| NotRecords (parsed : Foreign).

Definition getDemands : M Demands :=
  try_catch
    (stored <- getItem STORAGE_KEY ;;
     match stored with
     | Some (Serialized demands) => ret (Records demands)
     | Some (OtherJson parsed) => ret (NotRecords parsed)
     | Some Unparseable => throw "SyntaxError"
     | None => ret (Records [])
     end)
    (fun _ => ret (Records [])).

(** The TypeError of calling an array method on a value that is not an
    array. *)
Definition notAnArray (method : string) (parsed : Foreign) : string :=
  match parsed with
  | FNull => "TypeError: Cannot read properties of null"
  | _ => ("TypeError: demands." ++ method ++ " is not a function")%string
  end.

(** [demands.push(d)] *)
Definition arrayPush (demands : Demands) (d : DemandRecord) : Completion (list DemandRecord) :=
  match demands with
  | Records records => Returned (records ++ [d])
  | NotRecords parsed => Thrown (notAnArray "push" parsed)
  end.

(** [demands.filter(f)] *)
Definition arrayFilter (f : DemandRecord -> bool) (demands : Demands)
  : Completion (list DemandRecord) :=
  match demands with
  | Records records => Returned (List.filter f records)
  | NotRecords parsed => Thrown (notAnArray "filter" parsed)
  end.

Definition addDemand (demand : DemandInput) : M DemandRecord :=
  demands <- getDemands ;;
  env <- ask ;;
  let newDemand :=
    {| id := randomUUID env;
       villageId := inVillageId demand;
       originCity := inOriginCity demand;
       desiredDate := inDesiredDate demand;
       partySize := inPartySize demand;
       email := inEmail demand;
       createdAt := now env |} in
  demands <- lift (arrayPush demands newDemand) ;;
  try_catch (setItem STORAGE_KEY (Serialized demands))
    (fun _ => throw "Failed to save demand request") ;;;
  ret newDemand.

Definition msPerDay : Z := 86400000.

(** ECMAScript's LocalTime and UTC. *)
Definition LocalTime (env : Env) (t : Z) : Z := t + localTZA env t true.

Definition UTC (env : Env) (t : Z) : Z := t - localTZA env t false.

(** [d.setDate(d.getDate() - days)] on the date with time value [t]: the
    local time is moved [days] calendar days back, keeping the time within
    the day (MakeDay counts whole days, across the ends of months and
    years), and is read back as a time value. This is [days] times 24
    hours before [t] when the zone has the same offset at both ends, and an
    hour more or less across a change of the offset. *)
Definition daysBefore (env : Env) (days : Z) (t : Z) : Z :=
  UTC env (LocalTime env t - days * msPerDay).

Definition getDemandCountForVillage (village : string) : M nat :=
  demands <- getDemands ;;
  env <- ask ;;
  let thirtyDaysAgo := daysBefore env 30 (now env) in
  kept <- lift (arrayFilter
                  (fun d => String.eqb (villageId d) village && (thirtyDaysAgo <? createdAt d))
                  demands) ;;
  ret (List.length kept).

(** A value of the object [getAllDemandCounts] builds at type
    [Record<string, number>]: a number, or the string that [+ 1] makes of
    an inherited member. *)
Inductive CountValue : Type :=
| Num (n : nat)
| Text (s : string).

(** [(slot || 0) + 1] *)
Definition increment (slot : Slot CountValue) : CountValue :=
  match slot with
  | Undefined => Num 1
  | Own (Num n) => Num (n + 1)
  | Own (Text s) => if String.eqb s EmptyString then Num 1 else Text (s ++ "1")
  | Inherited key => Text (memberText key ++ "1")
  end.

(** [acc[d.villageId] = (acc[d.villageId] || 0) + 1] *)
Definition tally (acc : gmap string CountValue) (d : DemandRecord) : gmap string CountValue :=
  assign acc (villageId d) (increment (get acc (villageId d))).

Definition getAllDemandCounts : M (gmap string CountValue) :=
  demands <- getDemands ;;
  env <- ask ;;
  let thirtyDaysAgo := daysBefore env 30 (now env) in
  kept <- lift (arrayFilter (fun d => thirtyDaysAgo <? createdAt d) demands) ;;
  ret (List.fold_left tally kept ∅).

Definition clearDemands : M unit :=
  try_catch (removeItem STORAGE_KEY) (fun _ => ret tt).

(** What [getDemands] reads from a store. *)
Definition parsed (store : gmap string StoredText) : Demands :=
  match store !! STORAGE_KEY with
  | Some (Serialized demands) => Records demands
  | Some (OtherJson other) => NotRecords other
  | _ => Records []
  end.

(** Whether the store reads as an array. *)
Definition readable (store : gmap string StoredText) : bool :=
  match parsed store with Records _ => true | NotRecords _ => false end.

(** The records a store holds: those of the array it reads as, and none
    when it reads as something else. *)
Definition collection (store : gmap string StoredText) : list DemandRecord :=
  match parsed store with Records demands => demands | NotRecords _ => [] end.

(** The record [addDemand] builds from its argument and the browser. *)
Definition stamped (env : Env) (demand : DemandInput) : DemandRecord :=
  {| id := randomUUID env;
     villageId := inVillageId demand;
     originCity := inOriginCity demand;
     desiredDate := inDesiredDate demand;
     partySize := inPartySize demand;
     email := inEmail demand;
     createdAt := now env |}.

(** The records of a village that the filter of
    [getDemandCountForVillage] keeps at the time of [env]. *)
Definition counted (env : Env) (records : list DemandRecord) (village : string) : nat :=
  List.length
    (List.filter
       (fun d => String.eqb (villageId d) village
                 && (daysBefore env 30 (now env) <? createdAt d))
       records).

(** How far the threshold of the filter is from 30 times 24 hours before
    the call: the offset of the zone at the call less its offset 30
    calendar days earlier. *)
Definition offsetShift (env : Env) : Z :=
  localTZA env (now env) true
  - localTZA env (LocalTime env (now env) - 30 * msPerDay) false.

(** What the number at a key of the counts is, taking 0 when the key is
    absent: [None] when what is read there is not a number. *)
Definition numberAt (slot : Slot CountValue) : option nat :=
  match slot with
  | Undefined => Some 0%nat
  | Own (Num n) => Some n
  | Own (Text _) | Inherited _ => None
  end.

(** What is read at a key where no number is: an inherited member, or a
    string that is not empty. *)
Definition garbled (slot : Slot CountValue) : Prop :=
  match slot with
  | Inherited _ => True
  | Own (Text s) => s <> EmptyString
  | _ => False
  end.

(** The records of a village, in the order of the list. *)
Definition filterVillage (village : string) (records : list DemandRecord) : list DemandRecord :=
  List.filter (fun d => String.eqb (villageId d) village) records.

(** The count as the specification words it: the records of an entity
    whose [createdAt] lies within the trailing window of [windowDays] days
    from [now], days of 24 hours: later than [windowDays] days before
    [now], and not later than [now]. *)
Definition inTrailingWindow (windowDays now created : Z) : bool :=
  (now - windowDays * msPerDay <? created) && (created <=? now).

Fixpoint countFor (records : list DemandRecord) (entity : string) (windowDays now : Z) : nat :=
  match records with
  | [] => 0
  | r :: rest =>
      ((if String.eqb (villageId r) entity && inTrailingWindow windowDays now (createdAt r)
        then 1 else 0)
       + countFor rest entity windowDays now)%nat
  end.

End Demand.

(** ** Journey orchestrator: AppContext.tsx *)

Module Village.
(** The fields of a village that the orchestrator reads. *)
Record t : Type := { id : string; lat : Q; lng : Q }.
End Village.

Module Orchestrator.
Import Routing PlainObject.

Inductive Direction : Type := to | from.

(** [CITY_COORDS[city]]: the coordinates of the four cities, and what a
    plain object gives for every other name. *)
Definition CITY_COORDS (city : string) : Slot LatLng :=
  if String.eqb city "Nicosia" then Own {| lat := 35.1856; lng := 33.3823 |}
  else if String.eqb city "Limassol" then Own {| lat := 34.6823; lng := 33.0464 |}
  else if String.eqb city "Larnaca" then Own {| lat := 34.9229; lng := 33.6233 |}
  else if String.eqb city "Paphos" then Own {| lat := 34.7754; lng := 32.4245 |}
  else if inherited city then Inherited city
  else Undefined.

(** The fields of [AppState] that the location and route logic reads or
    writes ([currentView], [demandCounts] and [demandModalOpen] are apart). *)
Record AppState : Type := {
  userLocation : option LatLng;
  locationLoading : bool;
  locationError : option string;
  selectedCity : option string;
  selectedVillage : option Village.t;
  sidebarOpen : bool;
  routesToVillage : list Itinerary;
  routesFromVillage : list Itinerary;
  routesLoading : bool;
  routesError : option string;
  selectedRoute : option (Direction * nat)
}.

Definition initialState : AppState :=
  {| userLocation := None; locationLoading := true; locationError := None;
     selectedCity := None; selectedVillage := None; sidebarOpen := false;
     routesToVillage := []; routesFromVillage := []; routesLoading := false;
     routesError := None; selectedRoute := None |}.

(** The arguments a call of [fetchRoutes] closed over: both [planJourney]
    calls of one [Promise.all] use them. *)
Record Fetch : Type := { origin : Position; destination : Village.t }.

(** The state of the provider and the [fetchRoutes] calls whose
    [Promise.all] has not settled yet, by order of issue. *)
Record World : Type := {
  state : AppState;
  inflight : gmap nat Fetch;
  issued : nat
}.

Definition initialWorld : World :=
  {| state := initialState; inflight := ∅; issued := 0 |}.

(** What the provider reacts to: the two geolocation callbacks, the
    actions of the context, and the settling of a [Promise.all] with the
    two route lists or with a rejection. *)
Inductive Event : Type :=
| GeolocationSuccess (position : LatLng)
| GeolocationError (message : string)
| SetSelectedCity (city : option string)
| SetSelectedVillage (village : option Village.t)
| SetSelectedRoute (route : option (Direction * nat))
| FetchSettled (k : nat) (outcome : Completion (list Itinerary * list Itinerary)).

(** The updater passed to [setState] by each event. *)
Definition reduce (ev : Event) (prev : AppState) : AppState :=
  match ev with
  | GeolocationSuccess position =>
      {| userLocation := Some position; locationLoading := false; locationError := None;
         selectedCity := selectedCity prev; selectedVillage := selectedVillage prev;
         sidebarOpen := sidebarOpen prev; routesToVillage := routesToVillage prev;
         routesFromVillage := routesFromVillage prev; routesLoading := routesLoading prev;
         routesError := routesError prev; selectedRoute := selectedRoute prev |}
  | GeolocationError message =>
      {| userLocation := userLocation prev; locationLoading := false;
         locationError := Some message;
         selectedCity := selectedCity prev; selectedVillage := selectedVillage prev;
         sidebarOpen := sidebarOpen prev; routesToVillage := routesToVillage prev;
         routesFromVillage := routesFromVillage prev; routesLoading := routesLoading prev;
         routesError := routesError prev; selectedRoute := selectedRoute prev |}
  | SetSelectedCity city =>
      {| userLocation := userLocation prev; locationLoading := locationLoading prev;
         locationError := locationError prev;
         selectedCity := city; selectedVillage := selectedVillage prev;
         sidebarOpen := sidebarOpen prev; routesToVillage := routesToVillage prev;
         routesFromVillage := routesFromVillage prev; routesLoading := routesLoading prev;
         routesError := routesError prev; selectedRoute := selectedRoute prev |}
  | SetSelectedVillage village =>
      {| userLocation := userLocation prev; locationLoading := locationLoading prev;
         locationError := locationError prev;
         selectedCity := selectedCity prev; selectedVillage := village;
         sidebarOpen := match village with Some _ => true | None => false end;
         routesToVillage := routesToVillage prev;
         routesFromVillage := routesFromVillage prev; routesLoading := routesLoading prev;
         routesError := routesError prev; selectedRoute := None |}
  | SetSelectedRoute route =>
      {| userLocation := userLocation prev; locationLoading := locationLoading prev;
         locationError := locationError prev;
         selectedCity := selectedCity prev; selectedVillage := selectedVillage prev;
         sidebarOpen := sidebarOpen prev; routesToVillage := routesToVillage prev;
         routesFromVillage := routesFromVillage prev; routesLoading := routesLoading prev;
         routesError := routesError prev; selectedRoute := route |}
  | FetchSettled _ (Returned (routesTo, routesFrom)) =>
      {| userLocation := userLocation prev; locationLoading := locationLoading prev;
         locationError := locationError prev;
         selectedCity := selectedCity prev; selectedVillage := selectedVillage prev;
         sidebarOpen := sidebarOpen prev; routesToVillage := routesTo;
         routesFromVillage := routesFrom; routesLoading := false;
         routesError := routesError prev; selectedRoute := selectedRoute prev |}
  | FetchSettled _ (Thrown message) =>
      {| userLocation := userLocation prev; locationLoading := locationLoading prev;
         locationError := locationError prev;
         selectedCity := selectedCity prev; selectedVillage := selectedVillage prev;
         sidebarOpen := sidebarOpen prev; routesToVillage := [];
         routesFromVillage := []; routesLoading := false;
         routesError := Some message; selectedRoute := selectedRoute prev |}
  end.

(** A string is truthy when it is not empty. *)
Definition cityGiven (city : option string) : bool :=
  match city with
  | Some c => negb (String.eqb c EmptyString)
  | None => false
  end.

(** [state.userLocation || (state.selectedCity ? CITY_COORDS[state.selectedCity] : null)],
    or [None] when this is falsy. An inherited member is truthy. *)
Definition originOf (st : AppState) : option Position :=
  match userLocation st with
  | Some location => Some (Coords location)
  | None =>
      match selectedCity st with
      | Some c =>
          if cityGiven (Some c) then
            match CITY_COORDS c with
            | Own coords => Some (Coords coords)
            | Inherited member => Some (Member member)
            | Undefined => None
            end
          else None
      | None => None
      end
  end.

Definition withRoutes (prev : AppState) (routesTo routesFrom : list Itinerary)
  (loading : bool) (error : option string) : AppState :=
  {| userLocation := userLocation prev; locationLoading := locationLoading prev;
     locationError := locationError prev;
     selectedCity := selectedCity prev; selectedVillage := selectedVillage prev;
     sidebarOpen := sidebarOpen prev; routesToVillage := routesTo;
     routesFromVillage := routesFrom; routesLoading := loading;
     routesError := error; selectedRoute := selectedRoute prev |}.

(** The body of the route effect, run on the state it was rendered with:
    clear the lists when there is no village or no origin; otherwise set
    [routesLoading], and issue [fetchRoutes] with the origin and village at
    hand. *)
Definition routeEffect (w : World) : World :=
  let st := state w in
  match selectedVillage st with
  | None =>
      {| state := withRoutes st [] [] (routesLoading st) (routesError st);
         inflight := inflight w; issued := issued w |}
  | Some village =>
      match userLocation st, cityGiven (selectedCity st) with
      | None, false =>
          {| state := withRoutes st [] [] (routesLoading st) (routesError st);
             inflight := inflight w; issued := issued w |}
      | _, _ =>
          match originOf st with
          | None => w
          | Some o =>
              {| state := withRoutes st (routesToVillage st) (routesFromVillage st) true None;
                 inflight := <[issued w := {| origin := o; destination := village |}]> (inflight w);
                 issued := S (issued w) |}
          end
      end
  end.

(** The villages handed to [setSelectedVillage] are the objects of the
    static village list, one for each id: two of them are the same object
    when their ids agree. *)
Definition sameVillage (a b : option Village.t) : bool :=
  match a, b with
  | Some x, Some y => String.eqb (Village.id x) (Village.id y)
  | None, None => true
  | _, _ => false
  end.

Definition sameCity (a b : option string) : bool :=
  match a, b with
  | Some x, Some y => String.eqb x y
  | None, None => true
  | _, _ => false
  end.

(** Whether the event changes a dependency of the route effect,
    [[selectedVillage, userLocation, selectedCity]]. A geolocation fix
    stores a fresh object. *)
Definition depsChanged (ev : Event) (prev : AppState) : bool :=
  match ev with
  | GeolocationSuccess _ => true
  | SetSelectedCity city => negb (sameCity (selectedCity prev) city)
  | SetSelectedVillage village => negb (sameVillage (selectedVillage prev) village)
  | _ => false
  end.

(** One event: its state update, the removal of a fetch that settled, and
    the route effect when a dependency changed. The settling of a fetch
    that is not in flight changes nothing. *)
Definition step (ev : Event) (w : World) : World :=
  match ev with
  | FetchSettled k _ =>
      match inflight w !! k with
      | Some _ =>
          {| state := reduce ev (state w); inflight := delete k (inflight w);
             issued := issued w |}
      | None => w
      end
  | _ =>
      let w' := {| state := reduce ev (state w); inflight := inflight w;
                   issued := issued w |} in
      if depsChanged ev (state w) then routeEffect w' else w'
  end.

Definition run (events : list Event) (w : World) : World :=
  List.fold_left (fun w ev => step ev w) events w.

Definition routesOf (st : AppState) (d : Direction) : list Itinerary :=
  match d with
  | to => routesToVillage st
  | from => routesFromVillage st
  end.

(** A route card exists for each index of a list, while the lists are not
    loading and a village is selected. *)
Definition cardShown (st : AppState) (d : Direction) (index : nat) : bool :=
  match selectedVillage st with
  | Some _ => negb (routesLoading st) && Nat.ltb index (List.length (routesOf st d))
  | None => false
  end.

Definition CITIES : list string := ["Nicosia"; "Limassol"; "Larnaca"; "Paphos"].

(** The events the interface and the browser can produce in a state: one
    geolocation callback, while the location is loading; a city from the
    selector, shown while there is no device location; a village marker
    or the closing of the sheet; a click on a route card that is shown
    (selecting it, or deselecting the selected one); the settling of a
    fetch in flight. *)
Definition enabled (ev : Event) (w : World) : bool :=
  let st := state w in
  match ev with
  | GeolocationSuccess _ | GeolocationError _ => locationLoading st
  | SetSelectedCity (Some city) =>
      match userLocation st, selectedVillage st with
      | None, Some _ => existsb (String.eqb city) CITIES
      | _, _ => false
      end
  | SetSelectedCity None => false
  | SetSelectedVillage _ => true
  | SetSelectedRoute (Some (d, index)) => cardShown st d index
  | SetSelectedRoute None =>
      match selectedRoute st with
      | Some (d, index) => cardShown st d index
      | None => false
      end
  | FetchSettled k _ =>
      match inflight w !! k with Some _ => true | None => false end
  end.

Inductive reachable : World -> Prop :=
| reachable_initial : reachable initialWorld
| reachable_step (w : World) (ev : Event) :
    reachable w -> enabled ev w = true -> reachable (step ev w).

(** [selectedRoute.index] is an index of the list it refers to. *)
Definition selectedRouteValid (st : AppState) : bool :=
  match selectedRoute st with
  | Some (d, index) => Nat.ltb index (List.length (routesOf st d))
  | None => true
  end.

(** [run], refusing an event that is not enabled where it occurs. *)
Fixpoint runEnabled (events : list Event) (w : World) : option World :=
  match events with
  | [] => Some w
  | ev :: rest => if enabled ev w then runEnabled rest (step ev w) else None
  end.

(** [Promise.all] of the two [planJourney] promises. *)
Definition promiseAll {A : Type} (a b : Completion A) : Completion (A * A) :=
  match a, b with
  | Returned x, Returned y => Returned (x, y)
  | Thrown message, _ => Thrown message
  | Returned _, Thrown message => Thrown message
  end.

Definition villageCoords (v : Village.t) : LatLng :=
  {| lat := Village.lat v; lng := Village.lng v |}.

(** What the [Promise.all] of a [fetchRoutes] call settles to, for an
    engine [fetch] and the time [now] the call read from the clock. *)
Definition fetchRoutesOutcome (positive : Json.value -> bool)
  (fetch : PlanQuery -> FetchOutcome) (now : Z) (f : Fetch)
  : Completion (list Itinerary * list Itinerary) :=
  promiseAll
    (planJourney positive fetch (origin f) (villageCoords (destination f)) (Some now))
    (planJourney positive fetch (villageCoords (destination f)) (origin f) (Some now)).

End Orchestrator.

(** ** Sample data for concrete runs *)

Module Sample.
Import Json Routing Orchestrator.

Definition kakopetria : Village.t :=
  {| Village.id := "kakopetria"; Village.lat := 34.9833; Village.lng := 32.9 |}.

Definition omodos : Village.t :=
  {| Village.id := "omodos"; Village.lat := 34.8478; Village.lng := 32.8086 |}.

Definition here : LatLng := {| lat := 35.17; lng := 33.36 |}.

Definition busLeg (points : string) : value :=
  JObj [("mode", JStr "BUS"); ("duration", JNum 1800);
        ("legGeometry", JObj [("points", JStr points)])].

Definition walkLeg : value := JObj [("mode", JStr "WALK"); ("duration", JNum 300)].

Definition rawItinerary (seconds : Q) : value :=
  JObj [("legs", JArr [walkLeg; busLeg "_p~iF~ps|U_ulLnnqC_mqNvxq`@"]);
        ("duration", JNum seconds)].

(** An engine that knows two itineraries out of Nicosia and one for every
    other journey; the duration tells the journeys of the two villages
    apart. *)
Definition engine (q : PlanQuery) : FetchOutcome :=
  let latitude (place : option LatLng) (degrees : Q) :=
    match place with
    | Some position => Qeq_bool (lat position) degrees
    | None => false
    end in
  let towards (v : Village.t) :=
    latitude (toPlace q) (Village.lat v) || latitude (fromPlace q) (Village.lat v) in
  let seconds := (if towards kakopetria then 3600 else 5400)%Q in
  let fromNicosia := latitude (fromPlace q) 35.1856%Q in
  Responded
    {| status := 200;
       body :=
         JsonBody
           (JObj [("itineraries",
                   JArr (if fromNicosia
                         then [rawItinerary seconds; rawItinerary (seconds + 600)%Q]
                         else [rawItinerary seconds]))]) |}.

Definition strict (v : value) : bool := false.

(** 2026-01-24T00:00:00Z *)
Definition clock : Z := 1769212800000.

(** The routes of village [v] from origin [o], as the engine gives them. *)
Definition routesFor (o : LatLng) (v : Village.t) : Completion (list Itinerary * list Itinerary) :=
  fetchRoutesOutcome strict engine clock {| origin := Coords o; destination := v |}.

Definition listsOf (c : Completion (list Itinerary * list Itinerary))
  : list Itinerary * list Itinerary :=
  match c with
  | Returned lists => lists
  | Thrown _ => ([], [])
  end.

Definition located : World := step (GeolocationSuccess here) initialWorld.

(** Kakopetria is selected, then Omodos; the result for Omodos arrives
    first and the result for Kakopetria last. *)
Definition staleTrace : list Event :=
  [GeolocationSuccess here;
   SetSelectedVillage (Some kakopetria);
   SetSelectedVillage (Some omodos);
   FetchSettled 1 (routesFor here omodos);
   FetchSettled 0 (routesFor here kakopetria)].

Definition nicosia : LatLng := {| lat := 35.1856; lng := 33.3823 |}.
Definition limassol : LatLng := {| lat := 34.6823; lng := 33.0464 |}.

(** No device location; Kakopetria is selected and Nicosia chosen; the
    second of the two routes found is selected; then Limassol is chosen,
    from where one route is found. *)
Definition cityChangeTrace : list Event :=
  [GeolocationError "User denied Geolocation";
   SetSelectedVillage (Some kakopetria);
   SetSelectedCity (Some "Nicosia");
   FetchSettled 0 (routesFor nicosia kakopetria);
   SetSelectedRoute (Some (to, 1%nat));
   SetSelectedCity (Some "Limassol");
   FetchSettled 1 (routesFor limassol kakopetria)].

(** A leg whose geometry encodes the single point (38.5, -120.2). *)
Definition onePointLeg : value := busLeg "_p~iF~ps|U".

(** Two transit legs and [transfers: 0], as the engine reports a through
    service. *)
Definition throughService : value :=
  JObj [("legs", JArr [busLeg "_p~iF~ps|U_ulLnnqC"; busLeg "_ulLnnqC_mqNvxq`@"]);
        ("duration", JNum 3600);
        ("transfers", JNum 0)].

Definition request : Demand.DemandInput :=
  {| Demand.inVillageId := "x"; Demand.inOriginCity := "Nicosia";
     Demand.inDesiredDate := "2026-01-24"; Demand.inPartySize := 3;
     Demand.inEmail := None |}.

(** A browser two hours ahead of UTC all year. *)
Definition browser (t : Z) (admits : bool) : Demand.Env :=
  {| Demand.now := t; Demand.randomUUID := "0b9f6c1e-5a0e-4b53-9d0c-3df4a6a1c2e7";
     Demand.quotaAdmits := fun _ => admits;
     Demand.localTZA := fun _ _ => 7200000 |}.

(** The zone of Cyprus in 2026: two hours ahead of UTC, and three from
    29 March, 01:00 UTC, to 25 October, 01:00 UTC. A local time that the
    change skips or repeats is read with the offset before the change. *)
Definition cyprus (t : Z) (isUTC : bool) : Z :=
  let summerStarts := clock + 64 * 86400000 + 3600000 in
  let summerEnds := summerStarts + 210 * 86400000 in
  let t := if isUTC then t else t - 10800000 in
  if (summerStarts <=? t) && (t <? summerEnds) then 10800000 else 7200000.

(** A browser in Cyprus. *)
Definition nicosiaBrowser (t : Z) : Demand.Env :=
  {| Demand.now := t; Demand.randomUUID := "0b9f6c1e-5a0e-4b53-9d0c-3df4a6a1c2e7";
     Demand.quotaAdmits := fun _ => true;
     Demand.localTZA := cyprus |}.

End Sample.

(** ** Demo data: prepopulateDemands of demand.ts *)

Module Seed.
Import Json Demand.

(** The draws of [Math.random], each by the bits of the double it
    returns, and of [crypto.randomUUID], by their order in the call. *)
Record Source : Type := { random : nat -> Z; uuid : nat -> string }.

(** The [k]-th value of [Math.random()]: a double at least 0 and below 1. *)
Definition mathRandom (src : Source) (k : nat) : Q := Double.unitDouble (random src k).

(** [Math.floor(Math.random() * n)] *)
Definition randomBelow (src : Source) (k : nat) (n : Z) : Z :=
  Double.floorOfProduct (mathRandom src k) (inject_Z n).

Definition cities : list string := ["Nicosia"; "Limassol"; "Larnaca"; "Paphos"].

Definition targetDates : list string := ["2026-01-24"; "2026-01-25"].

(** The decimal digits of a number that is not negative. *)
Definition digits (n : Z) : string := NilZero.string_of_uint (N.to_uint (Z.to_N n)).

(** One pass of the inner loop: the record pushed, from five draws of
    [Math.random] starting at [k] and one identifier. An index into
    [targetDates] or [cities] is always in range; the default of [nth]
    stands for [undefined]. *)
Definition makeRecord (src : Source) (env : Env) (village : string) (k u : nat)
  : DemandRecord :=
  let daysAgo := randomBelow src k 30 in
  let created := daysBefore env daysAgo (now env) in
  let desired := nth (Z.to_nat (randomBelow src (k + 1) 2)) targetDates EmptyString in
  {| id := uuid src u;
     villageId := village;
     originCity := nth (Z.to_nat (randomBelow src (k + 2) 4)) cities EmptyString;
     desiredDate := desired;
     partySize := inject_Z (randomBelow src (k + 3) 7 + 1);
     email := Some ("user" ++ digits (randomBelow src (k + 4) 10000) ++ "@example.com")%string;
     createdAt := created |}.

(** [for (let i = 0; i < numRequests; i++)] *)
Fixpoint makeRecords (src : Source) (env : Env) (village : string) (n k u : nat)
  : list DemandRecord :=
  match n with
  | O => []
  | S n' => makeRecord src env village k u :: makeRecords src env village n' (k + 5) (S u)
  end.

(** [Math.floor(Math.random() * 19) + 2] *)
Definition numRequests (src : Source) (k : nat) : nat := Z.to_nat (randomBelow src k 19 + 2).

(** [villageIds.forEach], with the number of draws made so far. *)
Fixpoint generate (src : Source) (env : Env) (villageIds : list string) (k u : nat)
  : list DemandRecord :=
  match villageIds with
  | [] => []
  | village :: rest =>
      let n := numRequests src k in
      makeRecords src env village n (S k) u
      ++ generate src env rest (S k + 5 * n) (u + n)
  end.

Section UncheckedLength.

(** Whether [v > 0] holds, fails or throws for a [v] that is a string, an
    array or an object ([ToPrimitive] and [ToNumber] are left to the
    environment). Only a stored object with a [length] member of such a
    type reaches it. *)
Variable exceedsZero : value -> Completion bool.

(** [existing.length > 0]: the length of the array; on a value that is not
    an array, a TypeError on [null], the length of a string, the [length]
    member of an object, and [undefined] otherwise. *)
Definition hasLength (existing : Demands) : Completion bool :=
  match existing with
  | Records demands => Returned (Nat.ltb 0 (List.length demands))
  | NotRecords FNull => Thrown "TypeError: Cannot read properties of null"
  | NotRecords (FBool _) | NotRecords (FNum _) => Returned false
  | NotRecords (FStr s) => Returned (negb (String.eqb s EmptyString))
  | NotRecords (FObj members) =>
      match lookupMember "length" members with
      | None | Some JNull => Returned false
      | Some (JBool b) => Returned b
      | Some (JNum n) => Returned (negb (Qle_bool n 0))
      | Some v => exceedsZero v
      end
  end.

Definition prepopulateDemands (src : Source) (villageIds : list string) (force : bool)
  : M unit :=
  try_catch
    (existing <- getDemands ;;
     nonEmpty <- lift (hasLength existing) ;;
     if nonEmpty && negb force then ret tt
     else
       ((if force && nonEmpty then removeItem STORAGE_KEY else ret tt) ;;;
        env <- ask ;;
        setItem STORAGE_KEY (Serialized (generate src env villageIds 0 0))))
    (fun _ => ret tt).

End UncheckedLength.

(** What a generated record looks like: one of the four cities, one of
    the two dates, a whole party of 1 to 7, created at the time of the
    call moved 0 to 29 calendar days back. *)
Definition plausible (env : Env) (r : DemandRecord) : Prop :=
  In (originCity r) cities
  /\ In (desiredDate r) targetDates
  /\ (exists n, partySize r = inject_Z n /\ 1 <= n <= 7)
  /\ (exists daysAgo, 0 <= daysAgo <= 29 /\ createdAt r = daysBefore env daysAgo (now env)).

(** A zone whose offset differs by less than a day between any two
    instants. *)
Definition calm (env : Env) : Prop :=
  forall t u a b, localTZA env t a - localTZA env u b < msPerDay.

End Seed.

(** ** Demand counts on screen: AppContext.tsx and useDemand.ts *)

Module Counts.
Import Demand PlainObject.

(** *** AppProvider: [demandCounts] and the store *)


(** The effect run when a village is selected:
    [{ ...prev.demandCounts, [id]: count }]. *)
Definition refreshCount (village : string) (counts : gmap string CountValue)
  : M (gmap string CountValue) :=
  count <- getDemandCountForVillage village ;;
  ret (define counts village (Num count)).

(** [submitDemand] of the context: the record is added, then
    [{ ...prev.demandCounts, [id]: (prev.demandCounts[id] || 0) + 1 }];
    when [addDemand] throws, the update is not reached. *)
Definition submitDemand (record : DemandInput) (env : Env)
  (screen : gmap string CountValue * gmap string StoredText)
  : Completion DemandRecord * (gmap string CountValue * gmap string StoredText) :=
  let (counts, store) := screen in
  match addDemand record env store with
  | (Returned fullRecord, store') =>
      (Returned fullRecord,
       (define counts (inVillageId record) (increment (get counts (inVillageId record))),
        store'))
  | (Thrown message, store') => (Thrown message, (counts, store'))
  end.

(** *** The hook useDemand: [count] and the store *)



End Counts.

(** ** Drawing a leg: ItineraryPolylines.tsx *)

Module Render.
Import Json Routing.

(** [isValidCoord] of the leg renderer: both are numbers, inside the box
    of Cyprus. *)
Definition isValidCoord (latitude longitude : value) : bool :=
  match latitude, longitude with
  | JNum a, JNum b =>
      Qle_bool 34 a && Qle_bool a 36 && Qle_bool 32 b && Qle_bool b 35
  | _, _ => false
  end.

Definition positionOf (p : Polyline.point) : value * value := (JNum (fst p), JNum (snd p)).

(** The positions of the line drawn for a leg, or [None] where the
    callback returns [null] and draws nothing. *)
Definition legPositions (leg : Leg) : option (list (value * value)) :=
  let hasValidEndpoints :=
    isValidCoord (placeLat (from leg)) (placeLng (from leg))
    && isValidCoord (placeLat (to leg)) (placeLng (to leg)) in
  if negb hasValidEndpoints then None
  else
    let kept :=
      if Nat.ltb 0 (List.length (polyline leg))
      then List.map positionOf
             (List.filter (fun p => isValidCoord (JNum (fst p)) (JNum (snd p))) (polyline leg))
      else [] in
    let polylinePositions :=
      if Nat.eqb (List.length kept) 0
      then [(placeLat (from leg), placeLng (from leg)); (placeLat (to leg), placeLng (to leg))]
      else kept in
    if Nat.ltb (List.length polylinePositions) 2 then None else Some polylinePositions.

End Render.

(** ** Route cards: VillageSheet.tsx *)

Module Sheet.
Import Orchestrator.

Definition sameRoute (a b : Direction * nat) : bool :=
  match fst a, fst b with
  | to, to | from, from => Nat.eqb (snd a) (snd b)
  | _, _ => false
  end.

(** [onSelect] of the card of route [index] in list [d]: deselect when it
    is the selected one, select it otherwise. *)
Definition onSelect (st : AppState) (d : Direction) (index : nat) : Event :=
  match selectedRoute st with
  | Some selected =>
      if sameRoute selected (d, index) then SetSelectedRoute None
      else SetSelectedRoute (Some (d, index))
  | None => SetSelectedRoute (Some (d, index))
  end.

(** [onShowOnMap] *)
Definition onShowOnMap (d : Direction) (index : nat) : Event :=
  SetSelectedRoute (Some (d, index)).

End Sheet.

(** ** Demand by village and city: DataView.tsx *)

Module DataView.
Import Demand PlainObject.

Record DemandByCity : Type := {
  city : string;
  totalPeople : Q;
  records : list DemandRecord
}.

(** [allDemands]; [selectedDate] is the chosen date as
    [format(selectedDate, 'yyyy-MM-dd')] writes it. *)
Definition allDemands (selectedDate : option string) : M Demands :=
  demands <- getDemands ;;
  match selectedDate with
  | None => ret demands
  | Some dateStr =>
      kept <- lift (arrayFilter (fun d => String.eqb (desiredDate d) dateStr) demands) ;;
      ret (Records kept)
  end.

(** [allDemands.filter((d) => d.villageId === village.id)] *)
Definition villageDemands (village : string) (all : Demands) : Completion (list DemandRecord) :=
  arrayFilter (fun d => String.eqb (villageId d) village) all.

(** One pass of the first [forEach]: create the entry of the city when
    what is read at its name is falsy, add the party to it and push the
    record. An inherited member is truthy and has no [records]: the push
    throws. *)
Definition groupStep (byCity : gmap string DemandByCity) (demand : DemandRecord)
  : Completion (gmap string DemandByCity) :=
  match get byCity (originCity demand) with
  | Undefined =>
      Returned
        (<[originCity demand :=
             {| city := originCity demand;
                totalPeople := (0 + partySize demand)%Q;
                records := [demand] |}]> byCity)
  | Own entry =>
      Returned
        (<[originCity demand :=
             {| city := city entry;
                totalPeople := (totalPeople entry + partySize demand)%Q;
                records := records entry ++ [demand] |}]> byCity)
  | Inherited _ => Thrown "TypeError: Cannot read properties of undefined (reading 'push')"
  end.

Definition byCity (demands : list DemandRecord) : Completion (gmap string DemandByCity) :=
  foldC groupStep demands ∅.

(** A value of the object [payoutByCity]: a number, or the string that
    [+=] makes of an inherited member. *)
Inductive Payout : Type :=
| Amount (q : Q)
| Garbled.

(** One pass of the second [forEach]: an entry that reads falsy is set to
    0, then the fare of the party is added. *)
Definition payoutStep (ticketPrice : Q) (payout : gmap string Payout) (demand : DemandRecord)
  : gmap string Payout :=
  let fare := (partySize demand * ticketPrice)%Q in
  match get payout (originCity demand) with
  | Undefined => <[originCity demand := Amount (0 + fare)]> payout
  | Own (Amount p) =>
      <[originCity demand := Amount ((if Qeq_bool p 0 then 0 else p) + fare)]> payout
  | Own Garbled => <[originCity demand := Garbled]> payout
  | Inherited _ => assign payout (originCity demand) Garbled
  end.

Definition payoutByCity (ticketPrice : Q) (demands : list DemandRecord) : gmap string Payout :=
  List.fold_left (payoutStep ticketPrice) demands ∅.

(** [villageDemands.reduce((sum, d) => sum + d.partySize, 0)] *)
Definition people (demands : list DemandRecord) : Q :=
  List.fold_left (fun sum d => (sum + partySize d)%Q) demands 0%Q.

Definition projectedPayout (ticketPrice : Q) (demands : list DemandRecord) : Q :=
  (people demands * ticketPrice)%Q.

(** The records of one origin city, in the order of the list. *)
Definition fromCity (c : string) (demands : list DemandRecord) : list DemandRecord :=
  List.filter (fun d => String.eqb (originCity d) c) demands.

(** Whole numbers that are not negative, with a total fare of at most
    2^53: the sums and products of the doubles are then exact. *)
Definition exact (ticketPrice : Q) (demands : list DemandRecord) : Prop :=
  (exists m, ticketPrice = inject_Z m /\ 0 <= m)
  /\ Forall (fun d => exists n, partySize d = inject_Z n /\ 0 <= n) demands
  /\ (people demands * ticketPrice <= inject_Z (2 ^ 53))%Q.

(** Whether no record names a member of [Object.prototype] as its city. *)
Definition plainCities (demands : list DemandRecord) : bool :=
  forallb (fun d => negb (inherited (originCity d))) demands.

End DataView.

(** ** More sample data *)

Module Fixture.
Import Demand.

(** A source of draws that walks through the doubles below 1, and
    numbered identifiers. *)
Definition dice : Seed.Source :=
  {| Seed.random := fun k => 0x3FC2492492492492 + Z.of_nat k * 0x0004F1A2B3C4D5E6;
     Seed.uuid := fun u => ("demo-" ++ Seed.digits (Z.of_nat u))%string |}.

(** No stored object has a [length] that needs the environment. *)
Definition plainLength (v : Json.value) : Completion bool := Returned false.

(** A store that holds one request for village x. *)
Definition stored : gmap string StoredText :=
  {[ STORAGE_KEY := Serialized [stamped (Sample.browser Sample.clock true) Sample.request] ]}.



(** A store that holds one request for village x, stamped an hour after
    the time of [Sample.clock]. *)
Definition ahead : gmap string StoredText :=
  {[ STORAGE_KEY :=
       Serialized [stamped (Sample.browser (Sample.clock + 3600000) true) Sample.request] ]}.

(** A request for the village with the id [constructor]. *)
Definition oddRequest : DemandInput :=
  {| inVillageId := "constructor"; inOriginCity := "Nicosia";
     inDesiredDate := "2026-01-24"; inPartySize := 3; inEmail := None |}.

Definition oddStore : gmap string StoredText :=
  {[ STORAGE_KEY := Serialized [stamped (Sample.browser Sample.clock true) oddRequest] ]}.

Definition twoVillages : list string := ["kakopetria"; "omodos"].

(** A success response with one itinerary that maps and one that is
    [null]. *)
Definition mixedResponse : Routing.Response :=
  {| Routing.status := 200;
     Routing.body :=
       Routing.JsonBody
         (Json.JObj [("itineraries",
                      Json.JArr [Sample.rawItinerary 3600; Json.JNull])]) |}.

End Fixture.

(** ** The groups of an encoded string *)

Module Groups.

(** A code unit whose byte has the continuation bit: [byte >= 0x20]. *)
Definition continues (c : Z) : bool := 32 <=? c - 63.

(** The number of groups the inner loop reads from a string: a group is a
    run of continuing code units closed by one that does not continue, or
    cut off by the end of the string ([started] tells that a group is
    under way). *)
Fixpoint groupsFrom (started : bool) (encoded : list Z) : nat :=
  match encoded with
  | [] => if started then 1%nat else 0%nat
  | c :: rest => if continues c then groupsFrom true rest else S (groupsFrom false rest)
  end.

Definition groups (encoded : list Z) : nat := groupsFrom false encoded.

(** What is left of a string after its first group. *)
Fixpoint afterGroup (encoded : list Z) : list Z :=
  match encoded with
  | [] => []
  | c :: rest => if continues c then afterGroup rest else rest
  end.

End Groups.

(** * Properties *)

(** ** Geometry codec *)

Section PolylineFacts.
Import Polyline.

Lemma charCodeAt_some (encoded : list Z) (index : nat) (c : Z) :
  charCodeAt encoded index = Some c -> (index < List.length encoded)%nat.
Proof.
  unfold charCodeAt. intros H. apply nth_error_Some. congruence.
Qed.

Lemma geq_some (byte : option Z) (n : Z) :
  geq byte n = true -> exists b, byte = Some b.
Proof. destruct byte; simpl; [eauto | discriminate]. Qed.

(** A group ends, strictly after its first index, when the fuel covers
    the rest of the string and one more read. *)
Lemma readGroup_ends (encoded : list Z) :
  forall (fuel index : nat) (shift result : Z),
    (0 < fuel)%nat ->
    (List.length encoded < fuel + index)%nat ->
    exists index' result',
      readGroup fuel encoded index shift result = Some (index', result')
      /\ (index < index')%nat.
Proof.
  induction fuel as [|fuel IH]; intros index shift result Hpos Hlen; [lia|].
  simpl.
  destruct (geq (minus63 (charCodeAt encoded index)) 32) eqn:Hge.
  - apply geq_some in Hge. destruct Hge as [b Hb].
    unfold minus63 in Hb.
    destruct (charCodeAt encoded index) as [c|] eqn:Hc; [|discriminate].
    apply charCodeAt_some in Hc.
    destruct (IH (S index) (shift + 5)
                (bitOr result (shiftLeft (bitAnd (Some (c - 63)) 31) shift)))
      as (i' & r' & Hrun & Hlt); [lia | lia |].
    exists i', r'. split; [exact Hrun | lia].
  - eexists _, _. split; [reflexivity | lia].
Qed.

(** More fuel does not change the outcome of a group that ended. *)
Lemma readGroup_more_fuel (encoded : list Z) :
  forall (fuel extra index : nat) (shift result : Z) (r : nat * Z),
    readGroup fuel encoded index shift result = Some r ->
    readGroup (fuel + extra) encoded index shift result = Some r.
Proof.
  induction fuel as [|fuel IH]; intros extra index shift result r H; [discriminate|].
  simpl in *.
  destruct (geq (minus63 (charCodeAt encoded index)) 32); [apply IH; exact H | exact H].
Qed.

(** The loop ends from any index once the fuel covers the rest of the
    string and two more steps. What it returns extends [points], by at
    least one point when the loop is entered and by at most one point for
    every two remaining code units, rounded up. *)
Lemma decodeLoop_ends (encoded : list Z) :
  forall (fuel index : nat) (lat lng : Z) (points : list point),
    (0 < fuel)%nat ->
    (List.length encoded + 2 <= fuel + index)%nat ->
    exists more,
      decodeLoop fuel encoded index lat lng points = Some (points ++ more)
      /\ ((index < List.length encoded)%nat -> (1 <= List.length more)%nat)
      /\ (2 * List.length more <= (List.length encoded - index) + 1)%nat.
Proof.
  induction fuel as [|fuel IH]; intros index lat lng points Hpos Hlen; [lia|].
  simpl.
  destruct (Nat.ltb index (List.length encoded)) eqn:Hlt.
  - apply Nat.ltb_lt in Hlt.
    destruct (readGroup_ends encoded fuel index 0 0) as (i1 & r1 & H1 & Hi1); [lia | lia |].
    rewrite H1.
    destruct (readGroup_ends encoded fuel i1 0 0) as (i2 & r2 & H2 & Hi2); [lia | lia |].
    rewrite H2.
    destruct (IH i2 (lat + zigzag r1) (lng + zigzag r2)
                (points ++ [toDegrees (lat + zigzag r1) (lng + zigzag r2)]))
      as (more & Hrun & Hone & Hmost); [lia | lia |].
    exists (toDegrees (lat + zigzag r1) (lng + zigzag r2) :: more).
    split; [| split].
    + rewrite Hrun. rewrite <- List.app_assoc. reflexivity.
    + intros _. simpl. lia.
    + simpl.
      destruct (Nat.ltb i2 (List.length encoded)) eqn:Hin.
      * apply Nat.ltb_lt in Hin. lia.
      * assert (more = []) as ->.
        { destruct fuel as [|fuel']; [lia|].
          simpl in Hrun. rewrite Hin in Hrun.
          injection Hrun as Hrun.
          apply (f_equal (@List.length point)) in Hrun.
          rewrite !List.length_app in Hrun.
          destruct more; [reflexivity | simpl in Hrun; lia]. }
        simpl. lia.
  - exists []. rewrite List.app_nil_r. split; [reflexivity|].
    apply Nat.ltb_ge in Hlt. split; [lia | simpl; lia].
Qed.

Lemma decodeLoop_more_fuel (encoded : list Z) :
  forall (fuel extra index : nat) (lat lng : Z) (points r : list point),
    decodeLoop fuel encoded index lat lng points = Some r ->
    decodeLoop (fuel + extra) encoded index lat lng points = Some r.
Proof.
  induction fuel as [|fuel IH]; intros extra index lat lng points r H; [discriminate|].
  simpl in *.
  destruct (Nat.ltb index (List.length encoded)); [|exact H].
  destruct (readGroup fuel encoded index 0 0) as [[i1 r1]|] eqn:H1; [|discriminate].
  rewrite (readGroup_more_fuel encoded fuel extra index 0 0 _ H1).
  destruct (readGroup fuel encoded i1 0 0) as [[i2 r2]|] eqn:H2; [|discriminate].
  rewrite (readGroup_more_fuel encoded fuel extra i1 0 0 _ H2).
  apply IH. exact H.
Qed.

Lemma decodePolyline_run (encoded : list Z) :
  decodeLoop (enoughFuel encoded) encoded 0 0 0 [] = Some (decodePolyline encoded).
Proof.
  unfold decodePolyline.
  destruct (decodeLoop_ends encoded (enoughFuel encoded) 0 0 0 [])
    as (more & Hrun & _); [unfold enoughFuel; lia | unfold enoughFuel; lia |].
  rewrite Hrun. reflexivity.
Qed.

Lemma decodePolyline_length (encoded : list Z) :
  (encoded <> [] -> (1 <= List.length (decodePolyline encoded))%nat)
  /\ (2 * List.length (decodePolyline encoded) <= List.length encoded + 1)%nat.
Proof.
  unfold decodePolyline.
  destruct (decodeLoop_ends encoded (enoughFuel encoded) 0 0 0 [])
    as (more & Hrun & Hone & Hmost); [unfold enoughFuel; lia | unfold enoughFuel; lia |].
  rewrite Hrun. simpl. split.
  - intros Hne. apply Hone. destruct encoded; [congruence | simpl; lia].
  - lia.
Qed.

(** C6. [decodePolyline] is total: on every input, malformed or
    truncated, both loops end within [encoded.length + 2] iterations and
    the call returns a finite list of points; nothing in it throws, and
    more iterations give the same list. *)
Theorem decodePolyline_total (encoded : list Z) :
  decodeLoop (enoughFuel encoded) encoded 0 0 0 [] = Some (decodePolyline encoded)
  /\ (forall extra,
        decodeLoop (enoughFuel encoded + extra) encoded 0 0 0 []
        = Some (decodePolyline encoded))
  /\ (2 * List.length (decodePolyline encoded) <= List.length encoded + 1)%nat.
Proof.
  split; [apply decodePolyline_run | split].
  - intros extra. apply decodeLoop_more_fuel. apply decodePolyline_run.
  - apply decodePolyline_length.
Qed.

Lemma codeUnits_length (s : string) : List.length (codeUnits s) = String.length s.
Proof.
  unfold codeUnits. rewrite List.length_map.
  induction s as [|c s IH]; simpl; [reflexivity | now rewrite IH].
Qed.

(** C7. The empty string decodes to no point, and the reference string of
    the polyline algorithm decodes to (38.5, -120.2), (40.7, -120.95),
    (43.252, -126.453), in this order. *)
Theorem decodePolyline_reference :
  decodePolyline (codeUnits EmptyString) = []
  /\ Forall2 samePoint
       (decodePolyline (codeUnits "_p~iF~ps|U_ulLnnqC_mqNvxq`@"))
       [(38.5, -120.2); (40.7, -120.95); (43.252, -126.453)]%Q.
Proof.
  split; [reflexivity|].
  vm_compute.
  repeat (constructor; [split; reflexivity|]).
  constructor.
Qed.

(** A group cut off by the end of the string: the continuation bit of
    the last code unit is set. *)
Example decodePolyline_truncated :
  decodePolyline (codeUnits "_p~iF~ps|") = [(38.50000, -4.85664)]%Q.
Proof. reflexivity. Qed.

End PolylineFacts.

(** ** Routing client *)

Section RoutingFacts.
Import Json Routing.

Variable positive : value -> bool.

(** What a leg that was mapped carries as its polyline. *)
Lemma parseLeg_polyline (raw : value) (leg : Leg) :
  parseLeg positive raw = Returned leg ->
  match geometryOf raw with
  | Some points =>
      if truthy (Some points) then decodePolylineOf positive points = Returned (polyline leg)
      else polyline leg = []
  | None => polyline leg = []
  end.
Proof.
  intros H.
  assert (forall k, getProp (Some raw) k = Returned (getPropOpt (Some raw) k)) as Hget.
  { destruct raw; try (intros; reflexivity). simpl in H. discriminate H. }
  unfold parseLeg in H. rewrite !Hget in H. cbn [bindC] in H.
  unfold geometryOf.
  destruct (getPropOpt (getPropOpt (Some raw) "legGeometry") "points") as [points|].
  - destruct (truthy (Some points)).
    + destruct (decodePolylineOf positive points); cbn [bindC] in H; [|discriminate].
      injection H as <-. reflexivity.
    + cbn [bindC] in H. injection H as <-. reflexivity.
  - cbn [bindC] in H. injection H as <-. reflexivity.
Qed.

(** C5, as the code has it. A leg that was mapped has an empty polyline
    when its geometry string is absent or empty; for a non-empty string of
    n code units the polyline is the decoded string, with at least one
    point and at most n/2 points rounded up. Nothing in the mapping asks
    for two points. *)
Theorem leg_polyline_shape (raw : value) (leg : Leg) :
  parseLeg positive raw = Returned leg ->
  match geometryOf raw with
  | None => polyline leg = []
  | Some (JStr s) =>
      polyline leg = Polyline.decodePolyline (codeUnits s)
      /\ (s = EmptyString -> polyline leg = [])
      /\ (s <> EmptyString -> (1 <= List.length (polyline leg))%nat)
      /\ (2 * List.length (polyline leg) <= String.length s + 1)%nat
  | Some _ => True
  end.
Proof.
  intros H. apply parseLeg_polyline in H.
  destruct (geometryOf raw) as [[ | b | n | s | items | members]|]; try exact I; [|exact H].
  assert (polyline leg = Polyline.decodePolyline (codeUnits s)) as Hdec.
  { simpl in H. destruct (String.eqb_spec s EmptyString) as [Heq|Hne]; simpl in H.
    - rewrite H, Heq. reflexivity.
    - injection H as <-. reflexivity. }
  rewrite Hdec.
  pose proof (decodePolyline_length (codeUnits s)) as [Hone Hmost].
  rewrite codeUnits_length in Hmost.
  split; [reflexivity | split; [| split]].
  - intros Heq. rewrite Heq. reflexivity.
  - intros Hne. apply Hone. destruct s; [congruence | discriminate].
  - exact Hmost.
Qed.

(** The itinerary mapping keeps a supplied [transfers] that is truthy, and
    derives the count from the legs otherwise. *)
Lemma parseItinerary_transfers (raw : value) (it : Itinerary) :
  parseItinerary positive raw = Returned it ->
  exists supplied,
    getProp (Some raw) "transfers" = Returned supplied
    /\ transfers it = orElse supplied (derivedTransfers (legs it)).
Proof.
  intros H. unfold parseItinerary in H.
  destruct (getProp (Some raw) "legs") as [rawLegs|]; cbn [bindC] in H; [|discriminate].
  destruct (arrayMap (parseLeg positive) rawLegs) as [mapped|];
    cbn [bindC] in H; [|discriminate].
  destruct (getProp (Some raw) "duration") as [rawDuration|];
    cbn [bindC] in H; [|discriminate].
  destruct (getProp (Some raw) "startTime") as [rawStart|];
    cbn [bindC] in H; [|discriminate].
  destruct (getProp (Some raw) "endTime") as [rawEnd|];
    cbn [bindC] in H; [|discriminate].
  destruct (getProp (Some raw) "walkDistance") as [rawWalk|];
    cbn [bindC] in H; [|discriminate].
  destruct (getProp (Some raw) "transfers") as [rawTransfers|];
    cbn [bindC] in H; [|discriminate].
  injection H as <-. exists rawTransfers. split; reflexivity.
Qed.

Lemma planJourney_returns (fetch : PlanQuery -> FetchOutcome)
  (from to : Position) (time : Z) :
  exists itineraries,
    planJourney positive fetch from to (Some time) = Returned itineraries.
Proof.
  unfold planJourney, tryCatch. cbn [toISOString bindC].
  match goal with |- context [match ?body with Returned _ => _ | Thrown _ => _ end] =>
    destruct body as [l|m] end.
  - eauto.
  - destruct (includes m "Failed to fetch"); eauto.
Qed.

Section Boundary.

Variable fetch : PlanQuery -> FetchOutcome.
Variables from to : Position.
Variable time : Z.

Let result := planJourney positive fetch from to (Some time).
Let outcome := fetch (planParams from to time).

Lemma handler_empty (m : string) :
  (if includes m "Failed to fetch" then Returned [] else Returned [])
  = Returned (@nil Itinerary).
Proof. destruct (includes m "Failed to fetch"); reflexivity. Qed.

Lemma planJourney_network_failure (m : string) :
  outcome = NetworkFailure m -> result = Returned [].
Proof.
  unfold outcome, result, planJourney; cbn [toISOString bindC]. intros ->. simpl. apply handler_empty.
Qed.

Lemma planJourney_not_ok (r : Response) :
  outcome = Responded r -> ok r = false -> result = Returned [].
Proof.
  unfold outcome, result, planJourney; cbn [toISOString bindC]. intros -> Hok. simpl. rewrite Hok. simpl.
  destruct (status r =? 404); reflexivity.
Qed.

Lemma planJourney_404 (r : Response) :
  outcome = Responded r -> status r = 404 -> result = Returned [].
Proof.
  intros Hout Hs. apply (planJourney_not_ok r Hout).
  unfold ok. rewrite Hs. reflexivity.
Qed.

Lemma planJourney_invalid_json (r : Response) :
  outcome = Responded r -> body r = InvalidJson -> result = Returned [].
Proof.
  intros Hout Hbody.
  destruct (ok r) eqn:Hok; [|exact (planJourney_not_ok r Hout Hok)].
  unfold outcome in Hout. unfold result, planJourney; cbn [toISOString bindC]. rewrite Hout. simpl.
  rewrite Hok. unfold json. rewrite Hbody. reflexivity.
Qed.

Lemma planJourney_no_itineraries (r : Response) (data : value) :
  outcome = Responded r -> body r = JsonBody data ->
  getProp (Some data) "itineraries" = Returned None -> result = Returned [].
Proof.
  intros Hout Hbody Hget.
  destruct (ok r) eqn:Hok; [|exact (planJourney_not_ok r Hout Hok)].
  unfold outcome in Hout. unfold result, planJourney; cbn [toISOString bindC]. rewrite Hout.
  cbn [awaitFetch bindC]. rewrite Hok. cbn [negb]. unfold json. rewrite Hbody.
  cbn [bindC]. rewrite Hget. reflexivity.
Qed.

Lemma planJourney_not_empty (itineraries : list Itinerary) :
  result = Returned itineraries -> itineraries <> [] ->
  exists r data raw,
    outcome = Responded r /\ ok r = true /\ body r = JsonBody data
    /\ getProp (Some data) "itineraries" = Returned raw
    /\ arrayMap (parseItinerary positive) raw = Returned itineraries.
Proof.
  intros Hres Hne.
  destruct outcome as [m|r] eqn:Hout.
  { rewrite (planJourney_network_failure m Hout) in Hres. congruence. }
  destruct (ok r) eqn:Hok;
    [| rewrite (planJourney_not_ok r Hout Hok) in Hres; congruence].
  destruct (body r) as [|data] eqn:Hbody;
    [rewrite (planJourney_invalid_json r Hout Hbody) in Hres; congruence|].
  exists r, data.
  unfold outcome in Hout. unfold result, planJourney in Hres; cbn [toISOString bindC] in Hres.
  rewrite Hout in Hres. cbn [awaitFetch bindC] in Hres. rewrite Hok in Hres.
  cbn [negb] in Hres. unfold json in Hres. rewrite Hbody in Hres.
  cbn [bindC] in Hres.
  destruct (getProp (Some data) "itineraries") as [raw|m] eqn:Hget;
    cbn [bindC tryCatch] in Hres;
    [| rewrite handler_empty in Hres; congruence].
  exists raw.
  destruct (truthy raw); cbn [negb tryCatch] in Hres; [| congruence].
  destruct (arrayMap (parseItinerary positive) raw) as [l|m];
    cbn [tryCatch] in Hres;
    [| rewrite handler_empty in Hres; congruence].
  injection Hres as ->. auto.
Qed.

End Boundary.

(** C3. The promise of [planJourney] rejects when [departureTime] is the
    invalid date: [toISOString] throws a RangeError while the parameters
    are built, before the [try] block. For every valid [departureTime],
    every origin and destination and every behaviour of the engine it
    resolves to a list: the empty list on status 404, on any other status
    that is not a success, on a network failure, on a body that is not
    JSON and on a success body without [itineraries]; a list that is not
    empty is the mapping of the [itineraries] of a success response. *)
Theorem planJourney_contract (fetch : PlanQuery -> FetchOutcome) (from to : Position) :
  planJourney positive fetch from to None = Thrown "RangeError: Invalid time value"
  /\ forall time : Z,
       let result := planJourney positive fetch from to (Some time) in
       let outcome := fetch (planParams from to time) in
       (exists itineraries, result = Returned itineraries)
       /\ (forall r, outcome = Responded r -> status r = 404 -> result = Returned [])
       /\ (forall r, outcome = Responded r -> ok r = false -> result = Returned [])
       /\ (forall m, outcome = NetworkFailure m -> result = Returned [])
       /\ (forall r, outcome = Responded r -> body r = InvalidJson -> result = Returned [])
       /\ (forall r data,
             outcome = Responded r -> body r = JsonBody data ->
             getProp (Some data) "itineraries" = Returned None -> result = Returned [])
       /\ (forall itineraries,
             result = Returned itineraries -> itineraries <> [] ->
             exists r data raw,
               outcome = Responded r /\ ok r = true /\ body r = JsonBody data
               /\ getProp (Some data) "itineraries" = Returned raw
               /\ arrayMap (parseItinerary positive) raw = Returned itineraries).
Proof.
  split; [reflexivity|].
  intros time. cbv zeta.
  split; [apply planJourney_returns|].
  split; [apply planJourney_404|].
  split; [apply planJourney_not_ok|].
  split; [apply planJourney_network_failure|].
  split; [apply planJourney_invalid_json|].
  split; [apply planJourney_no_itineraries | apply planJourney_not_empty].
Qed.

End RoutingFacts.

(** ** Plain objects *)

Section PlainObjectFacts.
Import PlainObject.

Lemma get_own {A : Type} (obj : gmap string A) (key : string) (a : A) :
  obj !! key = Some a -> get obj key = Own a.
Proof. unfold get. intros ->. reflexivity. Qed.

Lemma get_same {A : Type} (obj obj' : gmap string A) (key : string) :
  obj' !! key = obj !! key -> get obj' key = get obj key.
Proof. unfold get. intros ->. reflexivity. Qed.

Lemma assign_other {A : Type} (obj : gmap string A) (key other : string) (a : A) :
  key <> other -> assign obj key a !! other = obj !! other.
Proof.
  intros Hne. unfold assign.
  destruct (obj !! key); [apply lookup_insert_ne; exact Hne|].
  destruct (String.eqb key "__proto__"); [reflexivity | apply lookup_insert_ne; exact Hne].
Qed.

Lemma assign_own {A : Type} (obj : gmap string A) (key : string) (a : A) :
  obj !! key <> None \/ key <> "__proto__" -> assign obj key a !! key = Some a.
Proof.
  intros H. unfold assign.
  destruct (obj !! key) as [b|]; [apply lookup_insert_eq|].
  destruct (String.eqb_spec key "__proto__") as [Heq | Hne]; [| apply lookup_insert_eq].
  destruct H as [H | H]; [congruence | contradiction].
Qed.

Lemma inherited_proto : inherited "__proto__" = true.
Proof. reflexivity. Qed.

End PlainObjectFacts.

(** ** Demand ledger *)

Section DemandFacts.
Import PlainObject Demand.

Lemma getDemands_run (env : Env) (store : gmap string StoredText) :
  getDemands env store = (Returned (parsed store), store).
Proof.
  unfold getDemands, try_catch, bind, getItem, parsed.
  destruct (store !! STORAGE_KEY) as [[demands | other |]|]; reflexivity.
Qed.

Lemma parsed_insert (store : gmap string StoredText) (demands : list DemandRecord) :
  parsed (<[STORAGE_KEY := Serialized demands]> store) = Records demands.
Proof. unfold parsed. rewrite lookup_insert_eq. reflexivity. Qed.

Lemma collection_insert (store : gmap string StoredText) (demands : list DemandRecord) :
  collection (<[STORAGE_KEY := Serialized demands]> store) = demands.
Proof. unfold collection. rewrite parsed_insert. reflexivity. Qed.

Lemma parsed_empty : parsed ∅ = Records [].
Proof. unfold parsed. rewrite lookup_empty. reflexivity. Qed.

Lemma collection_empty : collection ∅ = [].
Proof. unfold collection. rewrite parsed_empty. reflexivity. Qed.

Lemma parsed_readable (store : gmap string StoredText) :
  readable store = true -> parsed store = Records (collection store).
Proof. unfold readable, collection. destruct (parsed store); [reflexivity | discriminate]. Qed.

Lemma parsed_delete (store : gmap string StoredText) :
  parsed (delete STORAGE_KEY store) = Records [].
Proof. unfold parsed. rewrite lookup_delete_eq. reflexivity. Qed.

(** What [addDemand] does: it throws a TypeError when the stored text is
    not an array, and otherwise goes by whether the quota admits the new
    text. *)
Lemma addDemand_run (env : Env) (store : gmap string StoredText) (demand : DemandInput) :
  addDemand demand env store =
  match parsed store with
  | Records records =>
      if quotaAdmits env (Serialized (records ++ [stamped env demand]))
      then (Returned (stamped env demand),
            <[STORAGE_KEY := Serialized (records ++ [stamped env demand])]> store)
      else (Thrown "Failed to save demand request", store)
  | NotRecords other => (Thrown (notAnArray "push" other), store)
  end.
Proof.
  unfold addDemand. unfold bind at 1. rewrite getDemands_run.
  unfold bind, ask, lift, arrayPush, try_catch, setItem, throw, ret.
  fold (stamped env demand).
  destruct (parsed store) as [records | other]; [| reflexivity].
  destruct (quotaAdmits env (Serialized (records ++ [stamped env demand]))); reflexivity.
Qed.

Lemma getDemandCountForVillage_run (env : Env) (store : gmap string StoredText)
  (village : string) :
  getDemandCountForVillage village env store
  = match parsed store with
    | Records records => (Returned (counted env records village), store)
    | NotRecords other => (Thrown (notAnArray "filter" other), store)
    end.
Proof.
  unfold getDemandCountForVillage. unfold bind at 1. rewrite getDemands_run.
  unfold bind, ask, lift, arrayFilter, ret.
  destruct (parsed store); reflexivity.
Qed.

Lemma getAllDemandCounts_run (env : Env) (store : gmap string StoredText) :
  getAllDemandCounts env store
  = match parsed store with
    | Records records =>
        (Returned
           (List.fold_left tally
              (List.filter (fun d => daysBefore env 30 (now env) <? createdAt d) records)
              ∅),
         store)
    | NotRecords other => (Thrown (notAnArray "filter" other), store)
    end.
Proof.
  unfold getAllDemandCounts. unfold bind at 1. rewrite getDemands_run.
  unfold bind, ask, lift, arrayFilter, ret.
  destruct (parsed store); reflexivity.
Qed.


Lemma counted_app (env : Env) (xs ys : list DemandRecord) (village : string) :
  counted env (xs ++ ys) village = (counted env xs village + counted env ys village)%nat.
Proof. unfold counted. rewrite List.filter_app, List.length_app. reflexivity. Qed.

(** The threshold of the filter: 30 times 24 hours before the call,
    moved by the change of the zone's offset. *)
Lemma thirtyDaysAgo_shift (env : Env) :
  daysBefore env 30 (now env) = now env - 30 * msPerDay + offsetShift env.
Proof. unfold daysBefore, UTC, LocalTime, offsetShift, LocalTime. lia. Qed.


(** The filter of the code and the window of the specification keep the
    same records when the zone's offset is the same at both ends of the
    window and no record is stamped later than the call. *)
Lemma counted_countFor (env : Env) (records : list DemandRecord) (village : string) :
  offsetShift env = 0 ->
  Forall (fun d => createdAt d <= now env) records ->
  counted env records village = countFor records village 30 (now env).
Proof.
  intros Hshift Hpast. unfold counted. rewrite thirtyDaysAgo_shift, Hshift, Z.add_0_r.
  induction Hpast as [|r rest Hr _ IH]; [reflexivity|].
  cbn [List.filter countFor]. unfold inTrailingWindow.
  replace (createdAt r <=? now env) with true by (symmetry; apply Z.leb_le; exact Hr).
  rewrite andb_true_r.
  destruct (String.eqb (villageId r) village && (now env - 30 * msPerDay <? createdAt r));
    cbn [List.length]; rewrite IH; reflexivity.
Qed.

(** C9, as the code has it. On a store that reads as an array,
    [getDemandCountForVillage] returns the number of records of the
    village whose [createdAt] is later than the time of the call moved 30
    calendar days back, and leaves the store as it is; a record stamped
    later than the call is counted too. This is the count over the
    trailing window of 30 days of 24 hours when the zone's offset is the
    same at both ends and no record is stamped later than the call. After
    one [addDemand] for village x on an empty store, a count for x made
    less than 30 calendar days later is 1; a record stamped 40 days or
    more before the call is not counted. On a store that does not read as
    an array the call throws a TypeError. *)
Theorem demand_count_window :
  (forall (env : Env) (store : gmap string StoredText) (village : string),
      getDemandCountForVillage village env store
      = match parsed store with
        | Records records => (Returned (counted env records village), store)
        | NotRecords other => (Thrown (notAnArray "filter" other), store)
        end)
  /\ (forall (env : Env) (records : list DemandRecord) (village : string),
        offsetShift env = 0 ->
        Forall (fun d => createdAt d <= now env) records ->
        counted env records village = countFor records village 30 (now env))
  /\ (forall (env env' : Env) (demand : DemandInput),
        inVillageId demand = "x" ->
        quotaAdmits env (Serialized [stamped env demand]) = true ->
        daysBefore env' 30 (now env') < now env ->
        fst (getDemandCountForVillage "x" env' (snd (addDemand demand env ∅)))
        = Returned 1%nat)
  /\ (forall (env : Env) (store : gmap string StoredText)
         (before rest : list DemandRecord) (r : DemandRecord) (village : string),
        parsed store = Records (before ++ r :: rest) ->
        createdAt r <= now env - 40 * msPerDay ->
        - 10 * msPerDay <= offsetShift env ->
        fst (getDemandCountForVillage village env store)
        = Returned (counted env (before ++ rest) village)).
Proof.
  split; [| split; [| split]].
  - intros env store village. apply getDemandCountForVillage_run.
  - intros env records village. apply counted_countFor.
  - intros env env' demand Hx Hquota Hsoon.
    rewrite addDemand_run, parsed_empty. cbn [app]. rewrite Hquota. cbn [snd].
    rewrite getDemandCountForVillage_run, parsed_insert. cbn [fst].
    unfold counted. cbn [List.filter stamped villageId createdAt]. rewrite Hx.
    replace (daysBefore env' 30 (now env') <? now env) with true
      by (symmetry; apply Z.ltb_lt; exact Hsoon).
    reflexivity.
  - intros env store before rest r village Hstore Hold Hshift.
    rewrite getDemandCountForVillage_run, Hstore. cbn [fst].
    rewrite !counted_app. f_equal.
    unfold counted. cbn [List.filter].
    replace (daysBefore env 30 (now env) <? createdAt r) with false.
    + rewrite andb_false_r. reflexivity.
    + symmetry. apply Z.ltb_ge. rewrite thirtyDaysAgo_shift. unfold msPerDay in *. lia.
Qed.

(** *** The object of counts *)

Lemma tally_other (acc : gmap string CountValue) (d : DemandRecord) (village : string) :
  villageId d <> village -> tally acc d !! village = acc !! village.
Proof. intros Hne. unfold tally. apply assign_other. exact Hne. Qed.

(** Where a number is read at the key of a village, folding records in
    adds the number of records of the village to it. *)
Lemma fold_tally_number (records : list DemandRecord) (village : string) :
  forall (acc : gmap string CountValue) (n : nat),
    numberAt (get acc village) = Some n ->
    numberAt (get (List.fold_left tally records acc) village)
    = Some (n + List.length (filterVillage village records))%nat.
Proof.
  induction records as [|r rest IH]; intros acc n Hn.
  - cbn. rewrite Hn. f_equal. lia.
  - cbn [List.fold_left filterVillage List.filter].
    destruct (String.eqb_spec (villageId r) village) as [Heq | Hne].
    + rewrite (IH (tally acc r) (n + 1)%nat).
      * fold (filterVillage village rest). cbn [List.length]. f_equal. lia.
      * unfold tally. rewrite Heq.
        assert (acc !! village <> None \/ village <> "__proto__") as Hown.
        { unfold get in Hn. destruct (acc !! village) as [v|]; [left; discriminate|].
          right. intros ->. rewrite inherited_proto in Hn. discriminate. }
        rewrite (get_own _ _ _ (assign_own _ _ _ Hown)).
        unfold get in Hn |- *.
        destruct (acc !! village) as [[m | s]|].
        -- injection Hn as ->. reflexivity.
        -- discriminate.
        -- destruct (inherited village); [discriminate|].
           injection Hn as <-. reflexivity.
    + rewrite (IH (tally acc r) n); [reflexivity|].
      rewrite (get_same acc (tally acc r)); [exact Hn | apply tally_other; exact Hne].
Qed.

Lemma append_not_empty (s : string) : (s ++ "1")%string <> EmptyString.
Proof. destruct s; discriminate. Qed.

Lemma fold_tally_garbled (records : list DemandRecord) (village : string) :
  forall acc : gmap string CountValue,
    garbled (get acc village) ->
    garbled (get (List.fold_left tally records acc) village).
Proof.
  induction records as [|r rest IH]; intros acc Hg; [exact Hg|].
  cbn [List.fold_left]. apply IH.
  destruct (String.eqb_spec (villageId r) village) as [Heq | Hne].
  - unfold tally. rewrite Heq. unfold get in Hg |- *. unfold assign.
    destruct (acc !! village) as [[m | s]|] eqn:Hacc.
    + destruct Hg.
    + rewrite lookup_insert_eq. cbn [increment].
      destruct (String.eqb_spec s EmptyString) as [-> | _]; [destruct Hg; reflexivity|].
      apply append_not_empty.
    + destruct (inherited village) eqn:Hin; [| destruct Hg].
      destruct (String.eqb village "__proto__").
      * try rewrite Hacc; try rewrite Hin; exact I.
      * rewrite lookup_insert_eq. cbn [increment]. apply append_not_empty.
  - rewrite (get_same acc (tally acc r)); [exact Hg | apply tally_other; exact Hne].
Qed.

Lemma garbled_not_number (slot : Slot CountValue) : garbled slot -> numberAt slot = None.
Proof. destruct slot as [[n | s] | key |]; cbn; intros H; try reflexivity; destruct H. Qed.

Lemma counted_filter (env : Env) (records : list DemandRecord) (village : string) :
  List.length
    (filterVillage village
       (List.filter (fun d => daysBefore env 30 (now env) <? createdAt d) records))
  = counted env records village.
Proof.
  unfold counted, filterVillage.
  induction records as [|r rest IH]; [reflexivity|].
  cbn [List.filter].
  destruct (daysBefore env 30 (now env) <? createdAt r); cbn [List.filter].
  - rewrite andb_true_r. destruct (String.eqb (villageId r) village);
      cbn [List.length]; rewrite IH; reflexivity.
  - rewrite andb_false_r. exact IH.
Qed.

(** C10, as the code has it. Evaluated at the same time on the same
    store, both calls leave the store as it is. On a store that reads as
    an array, for a village whose id is not the name of a member of
    [Object.prototype], the count of the village is the number read at its
    key in the result of [getAllDemandCounts], taking 0 when the key is
    absent; for an id that is such a name ([constructor], [toString],
    [__proto__], ...) what is read at the key is never a number. On a
    store that does not read as an array, both calls throw the same
    TypeError. *)
Theorem demand_counts_agree (env : Env) (store : gmap string StoredText) (village : string) :
  match parsed store with
  | Records _ =>
      exists (n : nat) (counts : gmap string CountValue),
        getDemandCountForVillage village env store = (Returned n, store)
        /\ getAllDemandCounts env store = (Returned counts, store)
        /\ numberAt (get counts village) = if inherited village then None else Some n
  | NotRecords other =>
      getDemandCountForVillage village env store = (Thrown (notAnArray "filter" other), store)
      /\ getAllDemandCounts env store = (Thrown (notAnArray "filter" other), store)
  end.
Proof.
  rewrite getDemandCountForVillage_run, getAllDemandCounts_run.
  destruct (parsed store) as [records | other]; [| split; reflexivity].
  eexists _, _. split; [reflexivity | split; [reflexivity|]].
  destruct (inherited village) eqn:Hin.
  - apply garbled_not_number, fold_tally_garbled.
    unfold get. rewrite lookup_empty, Hin. exact I.
  - rewrite (fold_tally_number _ village ∅ 0).
    + rewrite counted_filter. reflexivity.
    + unfold get. rewrite lookup_empty, Hin. reflexivity.
Qed.

End DemandFacts.

(** ** Journey orchestrator *)

Section OrchestratorFacts.
Import Routing Orchestrator.

Lemma runEnabled_run (events : list Event) :
  forall w w', runEnabled events w = Some w' -> run events w = w'.
Proof.
  induction events as [|ev rest IH]; intros w w' H; simpl in *.
  - congruence.
  - destruct (enabled ev w); [apply IH; exact H | discriminate].
Qed.

Lemma runEnabled_reachable (events : list Event) :
  forall w w', reachable w -> runEnabled events w = Some w' -> reachable w'.
Proof.
  induction events as [|ev rest IH]; intros w w' Hw H; simpl in *.
  - congruence.
  - destruct (enabled ev w) eqn:Hen; [|discriminate].
    apply (IH (step ev w)); [apply reachable_step; assumption | exact H].
Qed.

(** With a village selected and an origin at hand, the route effect sets
    [routesLoading], keeps the lists, and issues one fetch. *)
Lemma routeEffect_issues (w : World) (v : Village.t) (o : Position) :
  selectedVillage (state w) = Some v ->
  originOf (state w) = Some o ->
  routeEffect w =
  {| state := withRoutes (state w) (routesToVillage (state w))
                (routesFromVillage (state w)) true None;
     inflight := <[issued w := {| origin := o; destination := v |}]> (inflight w);
     issued := S (issued w) |}.
Proof.
  intros Hv Ho. unfold routeEffect. rewrite Hv, Ho.
  unfold originOf in Ho.
  destruct (userLocation (state w)); [reflexivity|].
  destruct (selectedCity (state w)) as [c|]; [|discriminate].
  destruct (cityGiven (Some c)); [reflexivity | discriminate].
Qed.

(** Selecting a village that is not the selected one, with an origin at
    hand: the selection is stored, the selected route is cleared, and a
    fetch for the village is issued. *)
Lemma step_select_village (w : World) (v : Village.t) (o : Position) :
  originOf (state w) = Some o ->
  sameVillage (selectedVillage (state w)) (Some v) = false ->
  let w' := step (SetSelectedVillage (Some v)) w in
  selectedVillage (state w') = Some v
  /\ selectedRoute (state w') = None
  /\ originOf (state w') = Some o
  /\ inflight w' = <[issued w := {| origin := o; destination := v |}]> (inflight w)
  /\ issued w' = S (issued w).
Proof.
  intros Ho Hsame. cbv zeta. unfold step. cbn [depsChanged]. rewrite Hsame. cbn [negb].
  rewrite (routeEffect_issues _ v o); [| reflexivity | exact Ho].
  cbn. repeat split. exact Ho.
Qed.

(** A fetch in flight that settles with two lists: the lists are stored,
    whatever village is selected by then, and nothing else of the
    selection changes. *)
Lemma step_settle (w : World) (k : nat) (f : Fetch) (routesTo routesFrom : list Itinerary) :
  inflight w !! k = Some f ->
  let w' := step (FetchSettled k (Returned (routesTo, routesFrom))) w in
  routesToVillage (state w') = routesTo
  /\ routesFromVillage (state w') = routesFrom
  /\ routesLoading (state w') = false
  /\ selectedVillage (state w') = selectedVillage (state w)
  /\ selectedRoute (state w') = selectedRoute (state w)
  /\ inflight w' = delete k (inflight w).
Proof.
  intros Hk. cbv zeta. unfold step. rewrite Hk. cbn. repeat split.
Qed.

(** C1, as the code has it. Village A is selected and then village B,
    with an origin at hand and both fetches in flight. Every result that
    arrives is stored: when the result for B arrives last the lists are
    those of B, and when the result for A arrives last the lists are those
    of A, with B still selected. No result is dropped. *)
Theorem last_settled_fetch_wins (w : World) (a b : Village.t) (o : Position)
  (routesA routesB : list Itinerary * list Itinerary) :
  originOf (state w) = Some o ->
  sameVillage (selectedVillage (state w)) (Some a) = false ->
  Village.id a <> Village.id b ->
  let selected := run [SetSelectedVillage (Some a); SetSelectedVillage (Some b)] w in
  let fetchA := issued w in
  let fetchB := S (issued w) in
  inflight selected !! fetchA = Some {| origin := o; destination := a |}
  /\ inflight selected !! fetchB = Some {| origin := o; destination := b |}
  /\ (let final := run [FetchSettled fetchA (Returned routesA);
                        FetchSettled fetchB (Returned routesB)] selected in
      selectedVillage (state final) = Some b
      /\ routesToVillage (state final) = fst routesB
      /\ routesFromVillage (state final) = snd routesB)
  /\ (let final := run [FetchSettled fetchB (Returned routesB);
                        FetchSettled fetchA (Returned routesA)] selected in
      selectedVillage (state final) = Some b
      /\ routesToVillage (state final) = fst routesA
      /\ routesFromVillage (state final) = snd routesA).
Proof.
  intros Ho Hsame Hab. cbv zeta. unfold run. cbn [List.fold_left].
  destruct routesA as [toA fromA], routesB as [toB fromB].
  destruct (step_select_village w a o Ho Hsame) as (HvA & _ & HoA & HinA & HisA).
  set (wA := step (SetSelectedVillage (Some a)) w) in *.
  assert (sameVillage (selectedVillage (state wA)) (Some b) = false) as HsameB.
  { rewrite HvA. cbn. apply String.eqb_neq. exact Hab. }
  destruct (step_select_village wA b o HoA HsameB) as (HvB & _ & _ & HinB & _).
  set (wB := step (SetSelectedVillage (Some b)) wA) in *.
  assert (inflight wB !! issued w = Some {| origin := o; destination := a |}) as HkA.
  { rewrite HinB, HisA, HinA. rewrite lookup_insert_ne by lia. apply lookup_insert_eq. }
  assert (inflight wB !! S (issued w) = Some {| origin := o; destination := b |}) as HkB.
  { rewrite HinB, HisA. apply lookup_insert_eq. }
  split; [exact HkA | split; [exact HkB | split]].
  - destruct (step_settle wB (issued w) _ toA fromA HkA) as (_ & _ & _ & Hv1 & _ & Hin1).
    set (w1 := step (FetchSettled (issued w) (Returned (toA, fromA))) wB) in *.
    assert (inflight w1 !! S (issued w) = Some {| origin := o; destination := b |}) as Hk.
    { rewrite Hin1. rewrite lookup_delete_ne by lia. exact HkB. }
    destruct (step_settle w1 (S (issued w)) _ toB fromB Hk) as (Hto & Hfrom & _ & Hv2 & _).
    rewrite Hto, Hfrom, Hv2, Hv1. auto.
  - destruct (step_settle wB (S (issued w)) _ toB fromB HkB) as (_ & _ & _ & Hv1 & _ & Hin1).
    set (w1 := step (FetchSettled (S (issued w)) (Returned (toB, fromB))) wB) in *.
    assert (inflight w1 !! issued w = Some {| origin := o; destination := a |}) as Hk.
    { rewrite Hin1. rewrite lookup_delete_ne by lia. exact HkA. }
    destruct (step_settle w1 (issued w) _ toA fromA Hk) as (Hto & Hfrom & _ & Hv2 & _).
    rewrite Hto, Hfrom, Hv2, Hv1. auto.
Qed.

Lemma routeEffect_selectedRoute (w : World) :
  selectedRoute (state (routeEffect w)) = selectedRoute (state w).
Proof.
  unfold routeEffect.
  destruct (selectedVillage (state w)); [|reflexivity].
  destruct (userLocation (state w)), (cityGiven (selectedCity (state w)));
    try reflexivity; destruct (originOf (state w)); reflexivity.
Qed.

Lemma step_selectedRoute (ev : Event) (w : World) :
  selectedRoute (state (step ev w))
  = match ev with
    | SetSelectedVillage _ => None
    | SetSelectedRoute route =>  route
    | _ => selectedRoute (state w)
    end.
Proof.
  destruct ev as [p | m | c | v | r | k [[routesTo routesFrom]|m]]; unfold step;
    try (destruct (depsChanged _ (state w));
         [rewrite routeEffect_selectedRoute|]; reflexivity).
  - destruct (inflight w !! k); reflexivity.
  - destruct (inflight w !! k); reflexivity.
Qed.

End OrchestratorFacts.

(** ** Concrete runs *)

Section Runs.
Import Json Routing Orchestrator Sample.

(** C1, as stated, fails: Kakopetria is selected and then Omodos before
    any result arrives; the result for Omodos arrives first and the one for
    Kakopetria last. Omodos is selected at the end, and the lists are those
    of Kakopetria. *)
Lemma stale_result_overwrites :
  exists final toA fromA toB fromB,
    runEnabled staleTrace initialWorld = Some final
    /\ routesFor here kakopetria = Returned (toA, fromA)
    /\ routesFor here omodos = Returned (toB, fromB)
    /\ selectedVillage (state final) = Some omodos
    /\ routesToVillage (state final) = toA
    /\ routesFromVillage (state final) = fromA
    /\ toA <> toB
    /\ inflight final = ∅.
Proof.
  eexists _, _, _, _, _.
  split; [vm_compute; reflexivity|].
  split; [vm_compute; reflexivity|].
  split; [vm_compute; reflexivity|].
  split; [reflexivity|].
  split; [reflexivity|].
  split; [reflexivity|].
  split; [discriminate | reflexivity].
Qed.

(** The theorem above at a concrete run: with the device location known,
    Kakopetria and then Omodos are selected and the results arrive in the
    order of the requests; the lists are those of Omodos. *)
Lemma last_settled_fetch_wins_witness :
  routesToVillage
    (state
       (run [SetSelectedVillage (Some kakopetria); SetSelectedVillage (Some omodos);
             FetchSettled 0 (Returned (listsOf (routesFor here kakopetria)));
             FetchSettled 1 (Returned (listsOf (routesFor here omodos)))]
          located))
  = fst (listsOf (routesFor here omodos)).
Proof.
  destruct (last_settled_fetch_wins located kakopetria omodos here
              (listsOf (routesFor here kakopetria)) (listsOf (routesFor here omodos)))
    as (_ & _ & (_ & H & _) & _).
  - reflexivity.
  - reflexivity.
  - discriminate.
  - exact H.
Defined.

(** C5, as stated, fails: the leg geometry "_p~iF~ps|U" encodes one point,
    and the mapped leg has a polyline of exactly one point. *)
Lemma leg_polyline_single_point :
  exists leg,
    parseLeg strict onePointLeg = Returned leg
    /\ geometryOf onePointLeg = Some (JStr "_p~iF~ps|U")
    /\ polyline leg = [(38.50000, -120.20000)]%Q
    /\ List.length (polyline leg) = 1%nat.
Proof.
  eexists. split; [vm_compute; reflexivity|].
  repeat split.
Qed.

(** The theorem above at the leg with the one-point geometry. *)
Lemma leg_polyline_shape_witness :
  exists leg,
    parseLeg strict onePointLeg = Returned leg
    /\ polyline leg = Polyline.decodePolyline (codeUnits "_p~iF~ps|U")
    /\ (1 <= List.length (polyline leg))%nat.
Proof.
  destruct (parseLeg strict onePointLeg) as [leg|m] eqn:Hleg.
  - exists leg. split; [reflexivity|].
    pose proof (leg_polyline_shape strict onePointLeg leg Hleg) as H.
    cbn in H. destruct H as (Hdec & _ & Hone & _).
    split; [exact Hdec | apply Hone; discriminate].
  - vm_compute in Hleg. discriminate Hleg.
Defined.

(** C4: the engine supplies [transfers: 0] for two transit legs, and the
    mapped itinerary has [transfers] 1: a supplied 0 is falsy for [||] and
    is replaced by the count derived from the legs. A supplied value that
    is truthy is kept, and an absent one is derived. *)
Theorem transfers_zero_is_rederived :
  (exists it,
      parseItinerary strict throughService = Returned it
      /\ getProp (Some throughService) "transfers" = Returned (Some (JNum 0))
      /\ transitLegs (legs it) = 2%nat
      /\ transfers it = JNum 1)
  /\ (forall positive raw it supplied,
        parseItinerary positive raw = Returned it ->
        getProp (Some raw) "transfers" = Returned supplied ->
        match supplied with
        | Some v =>
            if truthy (Some v) then transfers it = v
            else transfers it = derivedTransfers (legs it)
        | None => transfers it = derivedTransfers (legs it)
        end).
Proof.
  split.
  - eexists. split; [vm_compute; reflexivity|]. repeat split.
  - intros positive raw it supplied Hparse Hget.
    destruct (parseItinerary_transfers positive raw it Hparse) as (supplied' & Hget' & ->).
    rewrite Hget in Hget'. injection Hget' as <-.
    unfold orElse. destruct supplied as [v|]; [|reflexivity].
    destruct (truthy (Some v)); reflexivity.
Qed.

(** The contract at an engine that answers 404: the invalid date
    rejects, and the time of [clock] gives the empty list. *)
Lemma planJourney_contract_witness :
  planJourney strict (fun _ => Responded {| status := 404; body := InvalidJson |})
    here (villageCoords kakopetria) None
  = Thrown "RangeError: Invalid time value"
  /\ planJourney strict (fun _ => Responded {| status := 404; body := InvalidJson |})
       here (villageCoords kakopetria) (Some clock)
     = Returned [].
Proof.
  pose proof (planJourney_contract strict
                (fun _ => Responded {| status := 404; body := InvalidJson |})
                here (villageCoords kakopetria)) as [Hinvalid H].
  split; [exact Hinvalid|].
  specialize (H clock). cbv zeta in H. destruct H as (_ & H404 & _).
  exact (H404 {| status := 404; body := InvalidJson |} eq_refl eq_refl).
Defined.

(** C2: selecting a village clears [selectedRoute], and a change of
    origin (a city chosen, or the device location arriving) leaves it as
    it was although it issues a new fetch. A state is reached where
    [selectedRoute] is not an index of its list: with no device location,
    Kakopetria is selected and Nicosia chosen, the second of two routes is
    selected, Limassol is chosen, and one route is found. *)
Theorem origin_change_keeps_selectedRoute :
  (forall w village, selectedRoute (state (step (SetSelectedVillage village) w)) = None)
  /\ (forall w city,
        selectedRoute (state (step (SetSelectedCity city) w)) = selectedRoute (state w))
  /\ (forall w position,
        selectedRoute (state (step (GeolocationSuccess position) w))
        = selectedRoute (state w))
  /\ (exists w,
        runEnabled cityChangeTrace initialWorld = Some w
        /\ reachable w
        /\ selectedRoute (state w) = Some (to, 1%nat)
        /\ List.length (routesToVillage (state w)) = 1%nat
        /\ selectedRouteValid (state w) = false).
Proof.
  split; [| split; [| split]].
  - intros w village. apply step_selectedRoute.
  - intros w city. apply step_selectedRoute.
  - intros w position. apply step_selectedRoute.
  - destruct (runEnabled cityChangeTrace initialWorld) as [w|] eqn:Hrun.
    + exists w. split; [reflexivity|].
      split; [exact (runEnabled_reachable _ _ _ reachable_initial Hrun)|].
      vm_compute in Hrun. injection Hrun as <-. repeat split.
    + vm_compute in Hrun. discriminate Hrun.
Qed.



(** C9, as stated, fails: a record for village x stamped an hour after
    the call is counted, and does not lie within the trailing 30 days. *)
Lemma future_record_is_counted :
  fst (Demand.getDemandCountForVillage "x" (browser clock true) Fixture.ahead)
  = Returned 1%nat
  /\ Demand.collection Fixture.ahead
     = [Demand.stamped (browser (clock + 3600000) true) request]
  /\ Demand.countFor (Demand.collection Fixture.ahead) "x" 30 clock = 0%nat.
Proof. split; [vm_compute; reflexivity | split; vm_compute; reflexivity]. Qed.

(** Across the change to summer time the threshold is an hour later than
    30 times 24 hours before the call: a request made on 11 March 2026 at
    10:30 UTC is not counted on 10 April at 10:00 UTC, 29 days, 23 hours
    and 30 minutes later. *)
Example count_across_summer_time :
  let added := clock + 46 * 86400000 + 37800000 in
  let counting := added + 30 * 86400000 - 1800000 in
  Demand.daysBefore (nicosiaBrowser counting) 30 counting
  = counting - 30 * 86400000 + 3600000
  /\ fst (Demand.getDemandCountForVillage "x" (nicosiaBrowser counting)
            (snd (Demand.addDemand request (nicosiaBrowser added) ∅)))
     = Returned 0%nat.
Proof. split; vm_compute; reflexivity. Qed.

(** One request for village x on an empty store, counted a minute later. *)
Lemma demand_count_window_witness :
  fst (Demand.getDemandCountForVillage "x" (browser (clock + 60000) true)
         (snd (Demand.addDemand request (browser clock true) ∅)))
  = Returned 1%nat.
Proof.
  destruct demand_count_window as (_ & _ & Hadd & _).
  apply Hadd; [reflexivity | reflexivity | vm_compute; reflexivity].
Defined.

(** C10, as stated, fails: with one request for the village
    [constructor] stored, the count of the village is 1 and the value at
    its key in the result of [getAllDemandCounts] is a string. *)
Lemma constructor_count_is_text :
  fst (Demand.getDemandCountForVillage "constructor" (browser clock true) Fixture.oddStore)
  = Returned 1%nat
  /\ exists counts,
       fst (Demand.getAllDemandCounts (browser clock true) Fixture.oddStore) = Returned counts
       /\ PlainObject.get counts "constructor"
          = PlainObject.Own (Demand.Text "function Object() { [native code] }1").
Proof.
  split; [vm_compute; reflexivity|].
  eexists. split; [reflexivity | vm_compute; reflexivity].
Qed.

End Runs.

(** * Further properties *)

(** ** Demand ledger: clearing, adding and the aggregate view *)

Section DemandMore.
Import PlainObject Demand.

(** [clearDemands] never throws; afterwards the store reads as the empty
    array whatever it held, the collection is empty, every count is 0, the
    aggregate view has no entry, and the other keys of the store are as
    they were. *)
Theorem clearDemands_empties (env : Env) (store : gmap string StoredText) :
  fst (clearDemands env store) = Returned tt
  /\ collection (snd (clearDemands env store)) = []
  /\ (forall env', fst (getDemands env' (snd (clearDemands env store))) = Returned (Records []))
  /\ (forall env' village,
        fst (getDemandCountForVillage village env' (snd (clearDemands env store)))
        = Returned 0%nat)
  /\ (forall env', fst (getAllDemandCounts env' (snd (clearDemands env store))) = Returned ∅)
  /\ (forall key, key <> STORAGE_KEY -> snd (clearDemands env store) !! key = store !! key).
Proof.
  assert (clearDemands env store = (Returned tt, delete STORAGE_KEY store)) as -> by reflexivity.
  pose proof (parsed_delete store) as Hempty.
  cbn [fst snd].
  split; [reflexivity|].
  split; [unfold collection; rewrite Hempty; reflexivity|].
  split; [intros env'; rewrite getDemands_run, Hempty; reflexivity|].
  split; [| split].
  - intros env' village. rewrite getDemandCountForVillage_run, Hempty. reflexivity.
  - intros env'. rewrite getAllDemandCounts_run, Hempty. reflexivity.
  - intros key Hkey. apply lookup_delete_ne. congruence.
Qed.

(** A record that is added and stored raises the count of its village by
    one and leaves the count of every other village as it was, for every
    count made less than 30 calendar days after the addition. *)
Theorem addDemand_raises_count (env env' : Env) (store : gmap string StoredText)
  (demand : DemandInput) (village : string) :
  isReturned (fst (addDemand demand env store)) = true ->
  daysBefore env' 30 (now env') < now env ->
  fst (getDemandCountForVillage village env' (snd (addDemand demand env store)))
  = Returned
      (counted env' (collection store) village
       + (if String.eqb (inVillageId demand) village then 1 else 0))%nat.
Proof.
  rewrite addDemand_run. unfold collection.
  destruct (parsed store) as [records | other]; [| discriminate].
  destruct (quotaAdmits env (Serialized (records ++ [stamped env demand]))); [| discriminate].
  intros _ Hsoon. cbn [snd].
  rewrite getDemandCountForVillage_run, parsed_insert. cbn [fst].
  rewrite counted_app. f_equal. f_equal.
  unfold counted. cbn [List.filter stamped villageId createdAt].
  replace (daysBefore env' 30 (now env') <? now env) with true
    by (symmetry; apply Z.ltb_lt; exact Hsoon).
  rewrite andb_true_r.
  destruct (String.eqb (inVillageId demand) village); reflexivity.
Qed.






End DemandMore.

(** ** Doubles *)

Section DoubleFacts.
Import Double.

Lemma pow2_pos (k : Z) : (0 < pow2 k)%Q.
Proof. apply Qpower_0_lt. reflexivity. Qed.

Lemma pow2_plus (a b : Z) : (pow2 (a + b) == pow2 a * pow2 b)%Q.
Proof. apply Qpower_plus. discriminate. Qed.

Lemma pow2_le (a b : Z) : a <= b -> (pow2 a <= pow2 b)%Q.
Proof. intros H. apply Qpower_le_compat_l; [exact H | discriminate]. Qed.

Lemma pow2_lt (a b : Z) : a < b -> (pow2 a < pow2 b)%Q.
Proof. intros H. apply Qpower_lt_compat_l; [exact H | reflexivity]. Qed.

Lemma pow2_inject (k : Z) : 0 <= k -> (inject_Z (2 ^ k) == pow2 k)%Q.
Proof. intros H. apply (Zpower_Qpower 2 k H). Qed.

Lemma nearestEven_near (r : Q) :
  (inject_Z (nearestEven r) <= r + (1 # 2))%Q
  /\ ((0 <= r)%Q -> 0 <= nearestEven r).
Proof.
  pose proof (Qfloor_le r) as Hlo. pose proof (Qlt_floor r) as Hhi.
  rewrite inject_Z_plus in Hhi. change (inject_Z 1) with 1%Q in Hhi.
  assert ((0 <= r)%Q -> 0 <= Qfloor r) as Hpos.
  { intros H. apply (Qfloor_resp_le 0 r) in H. exact H. }
  unfold nearestEven. cbv zeta.
  destruct (Qcompare_spec (r - inject_Z (Qfloor r)) (1 # 2)) as [Heq | Hlt | Hgt].
  - destruct (Z.even (Qfloor r)).
    + split; [lra | exact Hpos].
    + rewrite inject_Z_plus. change (inject_Z 1) with 1%Q. split; [lra | intros H; specialize (Hpos H); lia].
  - split; [lra | exact Hpos].
  - rewrite inject_Z_plus. change (inject_Z 1) with 1%Q. split; [lra | intros H; specialize (Hpos H); lia].
Qed.

(** The unit in the last place is the smallest one, or at most 2^-52 of
    the number. *)
Lemma ulp_small (q : Q) :
  (0 <= q)%Q ->
  ulpExponent q = -1074 \/ (pow2 (ulpExponent q) <= q * pow2 (-52))%Q.
Proof.
  intros Hq. unfold ulpExponent.
  set (s := Qfloor (q * pow2 1074)).
  destruct (Z.max_spec (Z.log2 s - 1074 - 52) (-1074)) as [[_ ->] | [Hlt ->]];
    [left; reflexivity | right].
  assert (0 < s) as Hs.
  { destruct (Z.lt_trichotomy s 0) as [Hneg | [Hz | Hp]]; [| | exact Hp].
    - rewrite Z.log2_nonpos in Hlt by lia. lia.
    - rewrite Hz in Hlt. simpl in Hlt. lia. }
  pose proof (Z.log2_spec s Hs) as [Hlog _].
  pose proof (Z.log2_nonneg s) as Hnn.
  assert (pow2 (Z.log2 s) <= q * pow2 1074)%Q as Hle.
  { rewrite <- pow2_inject by exact Hnn.
    apply Qle_trans with (inject_Z s); [rewrite <- Zle_Qle; exact Hlog | apply Qfloor_le]. }
  replace (Z.log2 s - 1074 - 52) with (Z.log2 s + (-1126)) by lia.
  rewrite pow2_plus.
  assert (pow2 (-52) == pow2 1074 * pow2 (-1126))%Q as ->.
  { rewrite <- pow2_plus. reflexivity. }
  pose proof (pow2_pos (-1126)) as Hp.
  rewrite Qmult_assoc. apply Qmult_le_compat_r; [exact Hle | lra].
Qed.

Lemma roundNearest_near (q : Q) :
  (0 <= q)%Q ->
  (0 <= roundNearest q)%Q
  /\ (roundNearest q <= q + (1 # 2) * pow2 (ulpExponent q))%Q.
Proof.
  intros Hq. unfold roundNearest.
  set (u := pow2 (ulpExponent q)).
  assert (0 < u)%Q as Hu by apply pow2_pos.
  assert (0 <= q / u)%Q as Hr.
  { apply Qle_shift_div_l; [exact Hu | lra]. }
  destruct (nearestEven_near (q / u)) as [Hnear Hpos].
  specialize (Hpos Hr).
  split.
  - apply Qmult_le_0_compat; [| lra].
    rewrite Zle_Qle in Hpos. exact Hpos.
  - apply Qle_trans with ((q / u + (1 # 2)) * u)%Q.
    + apply Qmult_le_compat_r; [exact Hnear | lra].
    + assert (q / u * u == q)%Q as Hdiv.
      { field. intros Hz. rewrite Hz in Hu. inversion Hu. }
      rewrite Qmult_plus_distr_l, Hdiv. lra.
Qed.

Lemma unitDouble_range (bits : Z) :
  (0 <= unitDouble bits)%Q /\ (unitDouble bits <= 1 - pow2 (-53))%Q.
Proof.
  unfold unitDouble. cbv zeta.
  pose proof (Z.mod_pos_bound bits (2 ^ 52) ltac:(lia)) as Hf.
  pose proof (Z.mod_pos_bound (bits / 2 ^ 52) 1023 ltac:(lia)) as He.
  set (fraction := bits mod 2 ^ 52) in *.
  set (exponent := (bits / 2 ^ 52) mod 1023) in *.
  destruct (Z.eqb_spec exponent 0) as [Hz | Hnz].
  - pose proof (pow2_pos (-1074)) as Hp.
    assert (inject_Z fraction <= inject_Z (2 ^ 52))%Q as Hle by (rewrite <- Zle_Qle; lia).
    assert (0 <= inject_Z fraction)%Q as Hge by (rewrite <- (Zle_Qle 0); lia).
    rewrite pow2_inject in Hle by lia.
    split; [apply Qmult_le_0_compat; lra|].
    apply Qle_trans with (pow2 52 * pow2 (-1074))%Q.
    + apply Qmult_le_compat_r; [exact Hle | lra].
    + rewrite <- pow2_plus.
      pose proof (pow2_lt (52 + -1074) (-1) ltac:(lia)) as H0.
      pose proof (pow2_lt (-53) (-1) ltac:(lia)) as H1.
      change (pow2 (-1)) with (1 # 2)%Q in H0, H1. lra.
  - pose proof (pow2_pos (exponent - 1075)) as Hp.
    assert (0 <= inject_Z (2 ^ 52 + fraction))%Q as Hge by (rewrite <- (Zle_Qle 0); lia).
    split; [apply Qmult_le_0_compat; lra|].
    assert (inject_Z (2 ^ 52 + fraction) <= pow2 53 - 1)%Q as Hle.
    { apply Qle_trans with (inject_Z (2 ^ 53 + -1)); [rewrite <- Zle_Qle; lia|].
      rewrite inject_Z_plus, pow2_inject by lia.
      change (inject_Z (-1)) with (-1)%Q. lra. }
    apply Qle_trans with ((pow2 53 - 1) * pow2 (-53))%Q.
    + apply Qle_trans with ((pow2 53 - 1) * pow2 (exponent - 1075))%Q.
      * apply Qmult_le_compat_r; [exact Hle | lra].
      * pose proof (pow2_le (exponent - 1075) (-53) ltac:(lia)).
        assert (0 <= pow2 53 - 1)%Q by lra.
        rewrite !(Qmult_comm (pow2 53 - 1)).
        apply Qmult_le_compat_r; assumption.
    + assert (pow2 53 * pow2 (-53) == 1)%Q as Hone.
      { rewrite <- pow2_plus. reflexivity. }
      lra.
Qed.

(** Flooring the rounded product of a double below 1 and a whole number
    [n] gives one of 0, ..., n - 1: the rounding never reaches [n]. *)
Lemma floorOfProduct_range (x : Q) (n : Z) :
  (0 <= x)%Q -> (x <= 1 - pow2 (-53))%Q -> 1 <= n ->
  0 <= floorOfProduct x (inject_Z n) < n.
Proof.
  intros Hx0 Hx1 Hn. unfold floorOfProduct.
  assert (1 <= inject_Z n)%Q as HnQ by (rewrite <- (Zle_Qle 1); exact Hn).
  set (q := (x * inject_Z n)%Q).
  assert (0 <= q)%Q as Hq by (apply Qmult_le_0_compat; lra).
  assert (q <= (1 - pow2 (-53)) * inject_Z n)%Q as Hq1.
  { apply Qmult_le_compat_r; [exact Hx1 | lra]. }
  destruct (roundNearest_near q Hq) as [Hlo Hhi].
  pose proof (pow2_pos (-53)) as He.
  pose proof (pow2_lt (-53) 0 ltac:(lia)) as He1. change (pow2 0) with 1%Q in He1.
  assert (roundNearest q < inject_Z n)%Q as Hlt.
  { destruct (ulp_small q Hq) as [Hsub | Hrel].
    - rewrite Hsub in Hhi.
      pose proof (pow2_lt (-1074) (-53) ltac:(lia)) as Ht.
      pose proof (pow2_pos (-1074)).
      assert (pow2 (-53) <= pow2 (-53) * inject_Z n)%Q by nra.
      lra.
    - assert (pow2 (-52) == 2 * pow2 (-53))%Q as H52.
      { change (-52) with (1 + -53). rewrite pow2_plus. reflexivity. }
      rewrite H52 in Hrel.
      assert (roundNearest q <= q * (1 + pow2 (-53)))%Q as Hr by lra.
      assert (q * (1 + pow2 (-53))
              <= (1 - pow2 (-53)) * inject_Z n * (1 + pow2 (-53)))%Q as Hm.
      { apply Qmult_le_compat_r; [exact Hq1 | lra]. }
      assert (0 < pow2 (-53) * pow2 (-53) * inject_Z n)%Q as Hsq.
      { apply Qmult_lt_0_compat; [apply Qmult_lt_0_compat; exact He | lra]. }
      lra. }
  split.
  - apply (Qfloor_resp_le 0) in Hlo. exact Hlo.
  - rewrite Zlt_Qlt. apply Qle_lt_trans with (roundNearest q); [apply Qfloor_le | exact Hlt].
Qed.

(** The double nearest to 1/7, printed 0.14285714285714285: its product
    with 7 rounds to 1. *)
Example floorOfProduct_seventh : floorOfProduct (unitDouble 0x3FC2492492492492) 7 = 1.
Proof. vm_compute. reflexivity. Qed.

End DoubleFacts.

(** ** Demo data *)

Section SeedFacts.
Import Json Demand Seed.

Variable exceedsZero : value -> Completion bool.

(** [Math.floor(Math.random() * n)] is one of 0, ..., n - 1. *)
Lemma randomBelow_range (src : Source) (k : nat) (n : Z) :
  0 < n -> 0 <= randomBelow src k n < n.
Proof.
  intros Hn. unfold randomBelow, mathRandom.
  destruct (unitDouble_range (random src k)) as [H0 H1].
  apply floorOfProduct_range; [exact H0 | exact H1 | lia].
Qed.

Lemma numRequests_range (src : Source) (k : nat) :
  (2 <= numRequests src k <= 20)%nat.
Proof.
  unfold numRequests. pose proof (randomBelow_range src k 19 ltac:(lia)). lia.
Qed.

Lemma nth_below (l : list string) (i : Z) :
  0 <= i < Z.of_nat (List.length l) -> In (nth (Z.to_nat i) l EmptyString) l.
Proof. intros H. apply nth_In. lia. Qed.

Lemma makeRecord_plausible (src : Source) (env : Env) (village : string) (k u : nat) :
  plausible env (makeRecord src env village k u)
  /\ villageId (makeRecord src env village k u) = village.
Proof.
  unfold plausible, makeRecord. cbn [originCity desiredDate partySize createdAt villageId].
  pose proof (randomBelow_range src k 30 ltac:(lia)) as Hdays.
  pose proof (randomBelow_range src (k + 1) 2 ltac:(lia)) as Hdate.
  pose proof (randomBelow_range src (k + 2) 4 ltac:(lia)) as Hcity.
  pose proof (randomBelow_range src (k + 3) 7 ltac:(lia)) as Hsize.
  split; [| reflexivity].
  split; [apply nth_below; simpl; lia|].
  split; [apply nth_below; simpl; lia|].
  split.
  - exists (randomBelow src (k + 3) 7 + 1). split; [reflexivity | lia].
  - exists (randomBelow src k 30). split; [lia | reflexivity].
Qed.

Lemma makeRecords_plausible (src : Source) (env : Env) (village : string) (n : nat) :
  forall k u,
    Forall (fun r => plausible env r /\ villageId r = village)
      (makeRecords src env village n k u).
Proof.
  induction n as [|n IH]; intros k u; simpl; constructor.
  - apply makeRecord_plausible.
  - apply IH.
Qed.

Lemma makeRecords_length (src : Source) (env : Env) (village : string) (n : nat) :
  forall k u, List.length (makeRecords src env village n k u) = n.
Proof. induction n as [|n IH]; intros k u; simpl; [reflexivity | now rewrite IH]. Qed.

(** In a calm zone, the time of the call moved fewer than 30 calendar
    days back is later than the threshold of the filter. *)
Lemma recent_within (env : Env) (daysAgo : Z) :
  calm env -> 0 <= daysAgo <= 29 ->
  daysBefore env 30 (now env) < daysBefore env daysAgo (now env).
Proof.
  intros Hcalm Hdays. unfold daysBefore, UTC.
  set (local := LocalTime env (now env)).
  specialize (Hcalm (local - daysAgo * msPerDay) (local - 30 * msPerDay) false false).
  unfold msPerDay in *. lia.
Qed.

(** The records generated for one village are all counted for it, and for
    no other village. *)
Lemma makeRecords_count (src : Source) (env : Env) (village v : string) (n : nat) :
  calm env ->
  forall k u,
    counted env (makeRecords src env village n k u) v
    = if String.eqb village v then n else 0%nat.
Proof.
  intros Hcalm. induction n as [|n IH]; intros k u.
  - simpl. destruct (String.eqb village v); reflexivity.
  - cbn [makeRecords]. change (?x :: ?l) with ([x] ++ l). rewrite counted_app, IH.
    destruct (makeRecord_plausible src env village k u)
      as [(_ & _ & _ & daysAgo & Hdays & Hcreated) Hv].
    unfold counted. cbn [List.filter]. rewrite Hv, Hcreated.
    replace (daysBefore env 30 (now env) <? daysBefore env daysAgo (now env)) with true
      by (symmetry; apply Z.ltb_lt; apply recent_within; assumption).
    rewrite andb_true_r. destruct (String.eqb village v); reflexivity.
Qed.

Lemma generate_plausible (src : Source) (env : Env) (villageIds : list string) :
  forall k u,
    Forall (fun r => plausible env r /\ In (villageId r) villageIds)
      (generate src env villageIds k u).
Proof.
  induction villageIds as [|village rest IH]; intros k u; simpl; [constructor|].
  apply Forall_app. split.
  - eapply Forall_impl; [apply makeRecords_plausible|].
    intros r [Hp Hv]. split; [exact Hp | left; congruence].
  - eapply Forall_impl; [apply IH|]. intros r [Hp Hv]. split; [exact Hp | right; exact Hv].
Qed.

Lemma generate_length (src : Source) (env : Env) (villageIds : list string) :
  forall k u,
    (2 * List.length villageIds <= List.length (generate src env villageIds k u)
     <= 20 * List.length villageIds)%nat.
Proof.
  induction villageIds as [|village rest IH]; intros k u; simpl; [lia|].
  rewrite List.length_app, makeRecords_length.
  pose proof (numRequests_range src k).
  specialize (IH (S (k + 5 * numRequests src k)) (u + numRequests src k)%nat).
  simpl in IH. lia.
Qed.

Lemma generate_count_absent (src : Source) (env : Env) (v : string) (villageIds : list string) :
  calm env ->
  ~ In v villageIds ->
  forall k u, counted env (generate src env villageIds k u) v = 0%nat.
Proof.
  intros Hcalm.
  induction villageIds as [|village rest IH]; intros Hnot k u; [reflexivity|].
  cbn [generate]. rewrite counted_app, makeRecords_count by exact Hcalm.
  destruct (String.eqb_spec village v) as [->|Hne]; [exfalso; apply Hnot; now left|].
  rewrite IH; [reflexivity|]. intros Hin. apply Hnot. now right.
Qed.

Lemma generate_count (src : Source) (env : Env) (v : string) (villageIds : list string) :
  calm env ->
  In v villageIds ->
  forall k u,
    (2 <= counted env (generate src env villageIds k u) v)%nat
    /\ (List.NoDup villageIds ->
        (counted env (generate src env villageIds k u) v <= 20)%nat).
Proof.
  intros Hcalm.
  induction villageIds as [|village rest IH]; intros Hin k u; [destruct Hin|].
  cbn [generate]. rewrite counted_app, makeRecords_count by exact Hcalm.
  pose proof (numRequests_range src k) as Hn.
  destruct (String.eqb_spec village v) as [->|Hne].
  - split; [lia|]. intros Hnodup.
    apply NoDup_cons_iff in Hnodup as [Hnot _].
    rewrite (generate_count_absent src env v rest Hcalm Hnot). lia.
  - destruct Hin as [Heq|Hin]; [congruence|].
    destruct (IH Hin (S k + 5 * numRequests src k)%nat (u + numRequests src k)%nat)
      as [Hlow Hhigh].
    split; [lia|]. intros Hnodup.
    apply NoDup_cons_iff in Hnodup as [_ Hrest]. specialize (Hhigh Hrest). lia.
Qed.

(** What [prepopulateDemands] does to the store: nothing when reading the
    length throws, and otherwise by its three branches. *)
Lemma prepopulateDemands_run (src : Source) (villageIds : list string) (force : bool)
  (env : Env) (store : gmap string StoredText) :
  prepopulateDemands exceedsZero src villageIds force env store =
  match hasLength exceedsZero (parsed store) with
  | Thrown _ => (Returned tt, store)
  | Returned nonEmpty =>
      if nonEmpty && negb force then (Returned tt, store)
      else
        let cleared := if force && nonEmpty then delete STORAGE_KEY store else store in
        if quotaAdmits env (Serialized (generate src env villageIds 0 0))
        then (Returned tt, <[STORAGE_KEY := Serialized (generate src env villageIds 0 0)]> cleared)
        else (Returned tt, cleared)
  end.
Proof.
  unfold prepopulateDemands, try_catch. unfold bind at 1. rewrite getDemands_run.
  unfold bind at 1. unfold lift.
  destruct (hasLength exceedsZero (parsed store)) as [nonEmpty | message]; [| reflexivity].
  destruct (nonEmpty && negb force); [reflexivity|].
  cbv zeta.
  destruct (force && nonEmpty);
    unfold bind, removeItem, ret, ask, setItem;
    destruct (quotaAdmits env (Serialized (generate src env villageIds 0 0)));
    reflexivity.
Qed.

Lemma hasLength_records (records : list DemandRecord) :
  hasLength exceedsZero (Records records) = Returned (Nat.ltb 0 (List.length records)).
Proof. reflexivity. Qed.

(** Without [force], a store that holds at least one record is left as it
    is: demo data never replaces stored demand unless forced. *)
Theorem prepopulate_keeps_stored_demand (src : Source) (villageIds : list string)
  (env : Env) (store : gmap string StoredText) :
  collection store <> [] ->
  prepopulateDemands exceedsZero src villageIds false env store = (Returned tt, store).
Proof.
  intros Hne. rewrite prepopulateDemands_run. unfold collection in Hne.
  destruct (parsed store) as [[|r rest] | other]; [congruence | reflexivity | congruence].
Qed.

(** [prepopulateDemands] never throws. With [force], no record is stored
    afterwards when the write of the demo data is refused: the collection
    is then empty, and a store that read as an array reads as the empty
    array. *)
Theorem prepopulate_never_throws (src : Source) (villageIds : list string) (force : bool)
  (env : Env) (store : gmap string StoredText) :
  fst (prepopulateDemands exceedsZero src villageIds force env store) = Returned tt
  /\ (force = true ->
      quotaAdmits env (Serialized (generate src env villageIds 0 0)) = false ->
      collection (snd (prepopulateDemands exceedsZero src villageIds force env store)) = [])
  /\ (force = true ->
      quotaAdmits env (Serialized (generate src env villageIds 0 0)) = false ->
      readable store = true ->
      parsed (snd (prepopulateDemands exceedsZero src villageIds force env store))
      = Records []).
Proof.
  rewrite prepopulateDemands_run.
  assert (forall nonEmpty,
             hasLength exceedsZero (parsed store) = Returned nonEmpty ->
             collection (if nonEmpty then delete STORAGE_KEY store else store) = []
             /\ (readable store = true ->
                 parsed (if nonEmpty then delete STORAGE_KEY store else store) = Records []))
    as Hcleared.
  { intros nonEmpty Hlen. destruct nonEmpty.
    - unfold collection. rewrite parsed_delete. split; [reflexivity | intros _; reflexivity].
    - unfold collection, readable.
      destruct (parsed store) as [[|r rest] | other];
        [split; reflexivity | discriminate | split; [reflexivity | discriminate]]. }
  destruct (hasLength exceedsZero (parsed store)) as [nonEmpty | message] eqn:Hlen.
  - split; [| split].
    + destruct (nonEmpty && negb force); [reflexivity|].
      cbv zeta. destruct (quotaAdmits env _); reflexivity.
    + intros -> Hquota. rewrite andb_false_r. cbv zeta. rewrite Hquota. cbn [snd andb].
      apply (Hcleared nonEmpty eq_refl).
    + intros -> Hquota Hread. rewrite andb_false_r. cbv zeta. rewrite Hquota. cbn [snd andb].
      apply (Hcleared nonEmpty eq_refl). exact Hread.
  - cbn [fst snd]. split; [reflexivity|].
    unfold collection, readable.
    destruct (parsed store) as [records | other]; [discriminate|].
    split; [reflexivity | discriminate].
Qed.

(** When the demo data is written (the length read from the store is not
    above 0, or [force] is set, and the write is admitted), the store
    reads as the generated list: between 2 and 20 records for each village
    id, each with one of the four cities, one of the two dates, a whole
    party of 1 to 7 (never 8) and a [createdAt] that is the time of the
    call moved 0 to 29 calendar days back. In a zone whose offset changes
    by less than a day, every village id then has a count of at least 2,
    and of at most 20 when the ids are distinct. *)
Theorem prepopulate_writes_plausible_data (src : Source) (villageIds : list string)
  (force : bool) (env : Env) (store : gmap string StoredText) (nonEmpty : bool) :
  hasLength exceedsZero (parsed store) = Returned nonEmpty ->
  nonEmpty && negb force = false ->
  quotaAdmits env (Serialized (generate src env villageIds 0 0)) = true ->
  let after := snd (prepopulateDemands exceedsZero src villageIds force env store) in
  parsed after = Records (generate src env villageIds 0 0)
  /\ Forall (fun r => plausible env r /\ In (villageId r) villageIds) (collection after)
  /\ (2 * List.length villageIds <= List.length (collection after)
      <= 20 * List.length villageIds)%nat
  /\ (calm env ->
      forall village,
        In village villageIds ->
        exists n,
          fst (getDemandCountForVillage village env after) = Returned n
          /\ (2 <= n)%nat
          /\ (List.NoDup villageIds -> (n <= 20)%nat)).
Proof.
  intros Hlen Hwhen Hquota. cbv zeta.
  assert (parsed (snd (prepopulateDemands exceedsZero src villageIds force env store))
          = Records (generate src env villageIds 0 0)) as Hafter.
  { rewrite prepopulateDemands_run, Hlen, Hwhen. cbv zeta. rewrite Hquota. cbn [snd].
    apply parsed_insert. }
  split; [exact Hafter|]. unfold collection. rewrite Hafter.
  split; [apply generate_plausible|].
  split; [apply generate_length|].
  intros Hcalm village Hin. eexists. rewrite getDemandCountForVillage_run, Hafter. cbn [fst].
  split; [reflexivity|]. apply generate_count; assumption.
Qed.

End SeedFacts.

(** ** Demand counts on screen *)

Section CountsFacts.
Import Json PlainObject Demand Counts.

(** A record stamped now is counted now, unless the offset of the zone
    moved by 30 days. *)
Lemma counted_stamped (env : Env) (records : list DemandRecord) (demand : DemandInput)
  (village : string) :
  offsetShift env < 30 * msPerDay ->
  counted env (records ++ [stamped env demand]) village
  = (counted env records village
     + (if String.eqb (inVillageId demand) village then 1 else 0))%nat.
Proof.
  intros Hshift. rewrite counted_app. f_equal.
  unfold counted. cbn [List.filter stamped villageId createdAt].
  replace (daysBefore env 30 (now env) <? now env) with true
    by (symmetry; apply Z.ltb_lt; rewrite thirtyDaysAgo_shift; lia).
  rewrite andb_true_r. destruct (String.eqb (inVillageId demand) village); reflexivity.
Qed.

(** [submitDemand] of the context keeps a count on screen in step with
    the ledger: where the number read at the key of a village is the count
    of the ledger, a submission that is stored leaves it so, for the
    record's village and for every other one. Where an inherited member is
    read at the key of the record's village, the submission puts a string
    there. A submission that throws changes neither the counts nor the
    store. *)
Theorem submitDemand_keeps_counts (env : Env) (counts : gmap string CountValue)
  (store : gmap string StoredText) (record : DemandInput) (village : string) :
  offsetShift env < 30 * msPerDay ->
  numberAt (get counts village) = Some (counted env (collection store) village) ->
  match submitDemand record env (counts, store) with
  | (Returned fullRecord, (counts', store')) =>
      fullRecord = stamped env record
      /\ parsed store' = Records (collection store ++ [fullRecord])
      /\ numberAt (get counts' village) = Some (counted env (collection store') village)
      /\ (forall key,
            get counts (inVillageId record) = Inherited key ->
            get counts' (inVillageId record) = Own (Text (memberText key ++ "1")))
  | (Thrown _, (counts', store')) => counts' = counts /\ store' = store
  end.
Proof.
  intros Hshift Hagree. unfold submitDemand. rewrite addDemand_run.
  unfold collection in *.
  destruct (parsed store) as [records | other]; [| split; reflexivity].
  destruct (quotaAdmits env _); [| split; reflexivity].
  split; [reflexivity|]. rewrite parsed_insert. split; [reflexivity|].
  split.
  - rewrite counted_stamped by exact Hshift. unfold define.
    destruct (String.eqb_spec (inVillageId record) village) as [-> | Hne].
    + rewrite (get_own _ _ _ (lookup_insert_eq _ _ _)).
      destruct (get counts village) as [[n | s] | key |]; try discriminate.
      * injection Hagree as ->. reflexivity.
      * injection Hagree as <-. reflexivity.
    + rewrite (get_same counts); [rewrite Hagree; f_equal; lia|].
      apply lookup_insert_ne. exact Hne.
  - intros key Hkey. unfold define.
    rewrite (get_own _ _ _ (lookup_insert_eq _ _ _)), Hkey. reflexivity.
Qed.

(** The effect run when a village is selected makes the count on screen
    of that village the count of the ledger, keeps the other counts, and
    leaves the store as it is. *)
Lemma refreshCount_sets_count (env : Env) (counts : gmap string CountValue)
  (store : gmap string StoredText) (village : string) :
  readable store = true ->
  exists counts',
    refreshCount village counts env store = (Returned counts', store)
    /\ counts' !! village = Some (Num (counted env (collection store) village))
    /\ forall other, other <> village -> counts' !! other = counts !! other.
Proof.
  intros Hread. unfold refreshCount. unfold bind.
  rewrite getDemandCountForVillage_run, (parsed_readable store Hread).
  eexists. split; [reflexivity|]. split.
  - apply lookup_insert_eq.
  - intros other Hne. apply lookup_insert_ne. congruence.
Qed.




End CountsFacts.

(** ** Routing client: which responses map *)

Section MappingFacts.
Import Json Routing.

Variable positive : value -> bool.

Lemma mapC_returned {A B : Type} (f : A -> Completion B) (l : list A) :
  forall r, mapC f l = Returned r <-> Forall2 (fun x y => f x = Returned y) l r.
Proof.
  induction l as [|x rest IH]; intros r; simpl.
  - split.
    + intros H. injection H as <-. constructor.
    + intros H. inversion H. reflexivity.
  - split.
    + destruct (f x) as [y|m] eqn:Hx; simpl; [|discriminate].
      destruct (mapC f rest) as [ys|m] eqn:Hrest; simpl; [|discriminate].
      intros H. injection H as <-. constructor; [exact Hx | apply IH; reflexivity].
    + intros H. inversion H as [|x' y rest' ys Hx Hrest]; subst.
      rewrite Hx. simpl. apply IH in Hrest. rewrite Hrest. reflexivity.
Qed.

Lemma mapC_thrown {A B : Type} (f : A -> Completion B) (l : list A) :
  Exists (fun x => isReturned (f x) = false) l -> exists m, mapC f l = Thrown m.
Proof.
  induction l as [|x rest IH]; intros H; [inversion H|].
  simpl. destruct (f x) as [y|m] eqn:Hx; simpl; [|eauto].
  inversion H as [? ? Hhead | ? ? Htail]; subst.
  - rewrite Hx in Hhead. discriminate.
  - destruct (IH Htail) as [m ->]. simpl. eauto.
Qed.

Lemma mapC_all {A B : Type} (f : A -> Completion B) (l : list A) :
  Forall (fun x => isReturned (f x) = true) l -> exists r, mapC f l = Returned r.
Proof.
  induction l as [|x rest IH]; intros H; simpl; [eauto|].
  inversion H as [|? ? Hhead Htail]; subst.
  destruct (f x) as [y|m]; [|discriminate]. simpl.
  destruct (IH Htail) as [r ->]. simpl. eauto.
Qed.

(** A leg that is not [null] and whose geometry is absent or a string
    always maps; [null] among the legs makes the mapping throw. The mapped
    mode is WALK only for the exact raw mode "WALK". *)
Theorem parseLeg_returns (leg : value) :
  (leg = JNull -> isReturned (parseLeg positive leg) = false)
  /\ (leg <> JNull ->
      (geometryOf leg = None \/ exists s, geometryOf leg = Some (JStr s)) ->
      exists mapped,
        parseLeg positive leg = Returned mapped
        /\ (mode mapped = WALK <-> getPropOpt (Some leg) "mode" = Some (JStr "WALK"))).
Proof.
  split; [intros ->; reflexivity|].
  intros Hnull Hgeo.
  assert (forall k, getProp (Some leg) k = Returned (getPropOpt (Some leg) k)) as Hget.
  { destruct leg; try (intros; reflexivity). congruence. }
  unfold parseLeg. rewrite !Hget. cbn [bindC]. fold (geometryOf leg).
  assert (exists decoded,
             match geometryOf leg with
             | Some points =>
                 if truthy (Some points) then decodePolylineOf positive points
                 else Returned []
             | None => Returned []
             end = Returned decoded) as [decoded ->].
  { destruct Hgeo as [-> | [s ->]]; [eauto|].
    destruct (truthy (Some (JStr s))); simpl; eauto. }
  cbn [bindC]. eexists. split; [reflexivity|]. cbn [mode].
  destruct (getPropOpt (Some leg) "mode") as [[ | b | n | s | items | members]|];
    try (split; discriminate).
  destruct s as [|c0 s]; [split; discriminate|].
  destruct c0 as [[] [] [] [] [] [] [] []]; try (split; discriminate).
  destruct s as [|c1 s]; [split; discriminate|].
  destruct c1 as [[] [] [] [] [] [] [] []]; try (split; discriminate).
  destruct s as [|c2 s]; [split; discriminate|].
  destruct c2 as [[] [] [] [] [] [] [] []]; try (split; discriminate).
  destruct s as [|c3 s]; [split; discriminate|].
  destruct c3 as [[] [] [] [] [] [] [] []]; try (split; discriminate).
  destruct s as [|c4 s]; [split; reflexivity | split; discriminate].
Qed.

(** An itinerary maps exactly when its [legs] is an array whose legs all
    map; its legs are then the mapped raw legs, one for one and in order.
    An itinerary without [legs] makes the mapping throw. *)
Theorem parseItinerary_maps_legs (raw : value) :
  (forall it,
      parseItinerary positive raw = Returned it ->
      exists rawLegs,
        getProp (Some raw) "legs" = Returned (Some (JArr rawLegs))
        /\ Forall2 (fun rawLeg leg => parseLeg positive rawLeg = Returned leg)
             rawLegs (legs it))
  /\ (forall rawLegs,
        getProp (Some raw) "legs" = Returned (Some (JArr rawLegs)) ->
        Forall (fun rawLeg => isReturned (parseLeg positive rawLeg) = true) rawLegs ->
        exists it, parseItinerary positive raw = Returned it)
  /\ (getProp (Some raw) "legs" = Returned None ->
      isReturned (parseItinerary positive raw) = false).
Proof.
  split; [| split].
  - intros it H. unfold parseItinerary in H.
    destruct (getProp (Some raw) "legs") as [rawLegs|]; cbn [bindC] in H; [|discriminate].
    destruct rawLegs as [[ | b | n | s | items | members]|]; try discriminate H.
    cbn [arrayMap] in H.
    destruct (mapC (parseLeg positive) items) as [mapped|] eqn:Hmap;
      cbn [bindC] in H; [|discriminate].
    destruct (getProp (Some raw) "duration"); cbn [bindC] in H; [|discriminate].
    destruct (getProp (Some raw) "startTime"); cbn [bindC] in H; [|discriminate].
    destruct (getProp (Some raw) "endTime"); cbn [bindC] in H; [|discriminate].
    destruct (getProp (Some raw) "walkDistance"); cbn [bindC] in H; [|discriminate].
    destruct (getProp (Some raw) "transfers"); cbn [bindC] in H; [|discriminate].
    injection H as <-. exists items. split; [reflexivity|]. cbn [legs].
    apply mapC_returned. exact Hmap.
  - intros rawLegs Hlegs Hall.
    assert (forall k, getProp (Some raw) k = Returned (getPropOpt (Some raw) k)) as Hget.
    { destruct raw; try (intros; reflexivity). discriminate Hlegs. }
    unfold parseItinerary. rewrite Hlegs. cbn [bindC arrayMap].
    destruct (mapC_all (parseLeg positive) rawLegs Hall) as [mapped ->].
    rewrite !Hget. cbn [bindC]. eauto.
  - intros Hlegs. unfold parseItinerary. rewrite Hlegs. reflexivity.
Qed.

(** A success response is mapped whole or not at all: when every raw
    itinerary maps, [planJourney] returns their mappings, one for one and
    in order; when one of them does not map, it returns the empty list and
    the itineraries that would map are lost with it. *)
Theorem planJourney_all_or_nothing (fetch : PlanQuery -> FetchOutcome)
  (from to : Position) (time : Z) (r : Response) (data : value)
  (raws : list value) :
  fetch (planParams from to time) = Responded r ->
  ok r = true ->
  body r = JsonBody data ->
  getProp (Some data) "itineraries" = Returned (Some (JArr raws)) ->
  (Forall (fun raw => isReturned (parseItinerary positive raw) = true) raws ->
   exists itineraries,
     planJourney positive fetch from to (Some time) = Returned itineraries
     /\ Forall2 (fun raw it => parseItinerary positive raw = Returned it) raws itineraries)
  /\ (Exists (fun raw => isReturned (parseItinerary positive raw) = false) raws ->
      planJourney positive fetch from to (Some time) = Returned []).
Proof.
  intros Hfetch Hok Hbody Hget.
  unfold planJourney. cbn [toISOString bindC]. rewrite Hfetch. cbn [awaitFetch bindC]. rewrite Hok. cbn [negb].
  unfold json. rewrite Hbody. cbn [bindC]. rewrite Hget. cbn [bindC truthy negb arrayMap].
  split.
  - intros Hall. destruct (mapC_all (parseItinerary positive) raws Hall) as [l Hl].
    exists l. rewrite Hl. split; [reflexivity | apply mapC_returned; exact Hl].
  - intros Hone. destruct (mapC_thrown (parseItinerary positive) raws Hone) as [m ->].
    cbn [tryCatch]. apply handler_empty.
Qed.

End MappingFacts.

(** ** Journey orchestrator: loading, missing origin, deselection *)

Section OrchestratorMore.
Import Routing Orchestrator.

Lemma routeEffect_loading (w : World) :
  (routesLoading (state w) = true -> inflight w <> ∅) ->
  routesLoading (state (routeEffect w)) = true -> inflight (routeEffect w) <> ∅.
Proof.
  intros Hinv. unfold routeEffect.
  destruct (selectedVillage (state w)); [| exact Hinv].
  destruct (userLocation (state w)), (cityGiven (selectedCity (state w)));
    try exact Hinv;
    destruct (originOf (state w)); try exact Hinv;
    intros _; cbn [inflight]; apply insert_non_empty.
Qed.

Lemma step_loading (ev : Event) (w : World) :
  (routesLoading (state w) = true -> inflight w <> ∅) ->
  routesLoading (state (step ev w)) = true -> inflight (step ev w) <> ∅.
Proof.
  intros Hinv.
  destruct ev as [p | m | c | v | r | k [[routesTo routesFrom]|m]]; unfold step;
    try (destruct (depsChanged _ (state w)); [apply routeEffect_loading|]; exact Hinv).
  - destruct (inflight w !! k); [discriminate | exact Hinv].
  - destruct (inflight w !! k); [discriminate | exact Hinv].
Qed.

(** Whenever [routesLoading] is set, a fetch is in flight: the loading
    placeholder is never shown without a request pending. *)
Theorem loading_has_fetch_in_flight (w : World) :
  reachable w -> routesLoading (state w) = true -> inflight w <> ∅.
Proof.
  induction 1 as [|w ev Hreach IH Hen]; [discriminate | apply step_loading; exact IH].
Qed.

(** A village selected while there is neither a device location nor a
    chosen city: the selection is stored, both lists are emptied, and no
    fetch is issued. *)
Theorem select_without_origin (w : World) (v : Village.t) :
  userLocation (state w) = None ->
  cityGiven (selectedCity (state w)) = false ->
  sameVillage (selectedVillage (state w)) (Some v) = false ->
  let w' := step (SetSelectedVillage (Some v)) w in
  selectedVillage (state w') = Some v
  /\ routesToVillage (state w') = []
  /\ routesFromVillage (state w') = []
  /\ routesLoading (state w') = routesLoading (state w)
  /\ inflight w' = inflight w
  /\ issued w' = issued w.
Proof.
  intros Hloc Hcity Hsame. cbv zeta. unfold step. cbn [depsChanged]. rewrite Hsame.
  cbn [negb]. unfold routeEffect. cbn [state reduce selectedVillage userLocation selectedCity].
  rewrite Hloc, Hcity. cbn. repeat split.
Qed.

(** The selection is cleared while a fetch is in flight: both lists are
    emptied and the selected route is cleared, but the fetch stays in
    flight, and when it settles its lists are stored although no village
    is selected. *)
Theorem deselect_does_not_cancel (w : World) (k : nat) (f : Fetch)
  (routesTo routesFrom : list Itinerary) :
  sameVillage (selectedVillage (state w)) None = false ->
  inflight w !! k = Some f ->
  let cleared := step (SetSelectedVillage None) w in
  let settled := step (FetchSettled k (Returned (routesTo, routesFrom))) cleared in
  selectedVillage (state cleared) = None
  /\ selectedRoute (state cleared) = None
  /\ routesToVillage (state cleared) = []
  /\ routesFromVillage (state cleared) = []
  /\ inflight cleared = inflight w
  /\ selectedVillage (state settled) = None
  /\ routesToVillage (state settled) = routesTo
  /\ routesFromVillage (state settled) = routesFrom.
Proof.
  intros Hsame Hk. cbv zeta.
  assert (step (SetSelectedVillage None) w
          = {| state := withRoutes (reduce (SetSelectedVillage None) (state w)) [] []
                          (routesLoading (state w)) (routesError (state w));
               inflight := inflight w; issued := issued w |}) as Hclear.
  { unfold step. cbn [depsChanged]. rewrite Hsame. reflexivity. }
  rewrite Hclear.
  match goal with |- context [step (FetchSettled k _) ?c] => set (cleared := c) end.
  destruct (step_settle cleared k f routesTo routesFrom Hk)
    as (Hto & Hfrom & _ & Hv & _).
  cbv zeta in Hto, Hfrom, Hv. rewrite Hto, Hfrom, Hv. cbn. repeat split.
Qed.

(** The device location arrives while a village is selected: it becomes
    the origin whatever city was chosen, a fetch from it to the village is
    issued and the lists are loading; the old lists and the selected route
    stay as they were. *)
Theorem location_arrival_refetches (w : World) (v : Village.t) (position : LatLng) :
  selectedVillage (state w) = Some v ->
  let w' := step (GeolocationSuccess position) w in
  userLocation (state w') = Some position
  /\ originOf (state w') = Some (Coords position)
  /\ inflight w' = <[issued w := {| origin := position; destination := v |}]> (inflight w)
  /\ routesLoading (state w') = true
  /\ routesToVillage (state w') = routesToVillage (state w)
  /\ routesFromVillage (state w') = routesFromVillage (state w)
  /\ selectedRoute (state w') = selectedRoute (state w).
Proof.
  intros Hv. cbv zeta. unfold step. cbn [depsChanged].
  rewrite (routeEffect_issues _ v position); [| exact Hv | reflexivity].
  cbn. repeat split.
Qed.

Lemma sameRoute_spec (a b : Direction * nat) : Sheet.sameRoute a b = true <-> a = b.
Proof.
  destruct a as [[] i], b as [[] j]; unfold Sheet.sameRoute; cbn [fst snd].
  - rewrite Nat.eqb_eq. split; [intros H; rewrite H; reflexivity | congruence].
  - split; [discriminate | intros H; discriminate H].
  - split; [discriminate | intros H; discriminate H].
  - rewrite Nat.eqb_eq. split; [intros H; rewrite H; reflexivity | congruence].
Qed.

(** A click on a route card selects it when it is not the selected one and
    clears the selection when it is, so two clicks on a card that was not
    selected end with no route selected, whatever was selected before;
    "Show on map" selects the route of its card in every state. *)
Theorem onSelect_toggles (w : World) (d : Direction) (index : nat) :
  let once := step (Sheet.onSelect (state w) d index) w in
  let twice := step (Sheet.onSelect (state once) d index) once in
  (selectedRoute (state w) = Some (d, index) ->
   selectedRoute (state once) = None /\ selectedRoute (state twice) = Some (d, index))
  /\ (selectedRoute (state w) <> Some (d, index) ->
      selectedRoute (state once) = Some (d, index) /\ selectedRoute (state twice) = None)
  /\ selectedRoute (state (step (Sheet.onShowOnMap d index) w)) = Some (d, index).
Proof.
  cbv zeta.
  assert (forall w', selectedRoute (state w') = Some (d, index) ->
                     selectedRoute (state (step (Sheet.onSelect (state w') d index) w')) = None)
    as Hoff.
  { intros w' Hsel. rewrite step_selectedRoute. unfold Sheet.onSelect. rewrite Hsel.
    rewrite (proj2 (sameRoute_spec (d, index) (d, index)) eq_refl). reflexivity. }
  assert (forall w', selectedRoute (state w') <> Some (d, index) ->
                     selectedRoute (state (step (Sheet.onSelect (state w') d index) w'))
                     = Some (d, index)) as Hon.
  { intros w' Hsel. rewrite step_selectedRoute. unfold Sheet.onSelect.
    destruct (selectedRoute (state w')) as [selected|]; [|reflexivity].
    destruct (Sheet.sameRoute selected (d, index)) eqn:Hsame; [|reflexivity].
    apply sameRoute_spec in Hsame. congruence. }
  split; [| split].
  - intros Hsel. split; [apply Hoff; exact Hsel|].
    apply Hon. rewrite (Hoff w Hsel). discriminate.
  - intros Hsel. split; [apply Hon; exact Hsel|].
    apply Hoff. apply Hon. exact Hsel.
  - apply step_selectedRoute.
Qed.

End OrchestratorMore.

(** ** Drawing a leg *)

Section RenderFacts.
Import Json Routing Render.

Lemma kept_positions (leg : Leg) :
  (if Nat.ltb 0 (List.length (polyline leg))
   then List.map positionOf
          (List.filter (fun p => isValidCoord (JNum (fst p)) (JNum (snd p))) (polyline leg))
   else [])
  = List.map positionOf
      (List.filter (fun p => isValidCoord (JNum (fst p)) (JNum (snd p))) (polyline leg)).
Proof. destruct (polyline leg); reflexivity. Qed.

(** A line that is drawn for a leg has at least two positions, all of them
    numbers inside the box of Cyprus. With valid end points, the line is
    the straight line between them when no point of the polyline is valid,
    and the valid points of the polyline when there are two or more; a
    polyline with exactly one valid point draws nothing. Without valid end
    points nothing is drawn. *)
Theorem drawn_leg_has_two_positions (leg : Leg) :
  let endpoints :=
    isValidCoord (placeLat (from leg)) (placeLng (from leg))
    && isValidCoord (placeLat (to leg)) (placeLng (to leg)) in
  let valid :=
    List.filter (fun p => isValidCoord (JNum (fst p)) (JNum (snd p))) (polyline leg) in
  (forall positions,
      legPositions leg = Some positions ->
      (2 <= List.length positions)%nat
      /\ Forall (fun p => isValidCoord (fst p) (snd p) = true) positions)
  /\ (endpoints = false -> legPositions leg = None)
  /\ (endpoints = true ->
      match valid with
      | [] =>
          legPositions leg
          = Some [(placeLat (from leg), placeLng (from leg));
                  (placeLat (to leg), placeLng (to leg))]
      | [_] => legPositions leg = None
      | _ :: _ :: _ => legPositions leg = Some (List.map positionOf valid)
      end).
Proof.
  cbv zeta. unfold legPositions. rewrite kept_positions.
  set (valid := List.filter (fun p => isValidCoord (JNum (fst p)) (JNum (snd p)))
                  (polyline leg)).
  assert (Forall (fun p => isValidCoord (fst p) (snd p) = true) (List.map positionOf valid))
    as Hvalid.
  { apply List.Forall_map. apply List.Forall_forall. intros p Hp.
    apply List.filter_In in Hp. exact (proj2 Hp). }
  destruct (isValidCoord (placeLat (from leg)) (placeLng (from leg))) eqn:Hfrom;
    destruct (isValidCoord (placeLat (to leg)) (placeLng (to leg))) eqn:Hto;
    cbn [andb negb];
    try (split; [discriminate | split; [reflexivity | discriminate]]).
  destruct valid as [|p [|q rest]]; cbn [List.map List.length Nat.eqb Nat.ltb Nat.leb].
  - split; [| split; [discriminate | reflexivity]].
    intros positions H. injection H as <-. split; [simpl; lia|].
    repeat constructor; assumption.
  - split; [discriminate | split; [discriminate | reflexivity]].
  - split; [| split; [discriminate | reflexivity]].
    intros positions H. injection H as <-. split; [simpl; lia | exact Hvalid].
Qed.

End RenderFacts.

(** ** Demand by village and city *)

Section DataViewFacts.
Import PlainObject Demand DataView.

Lemma fromCity_snoc (c : string) (demands : list DemandRecord) (d : DemandRecord) :
  fromCity c (demands ++ [d])
  = fromCity c demands ++ (if String.eqb (originCity d) c then [d] else []).
Proof.
  unfold fromCity. rewrite List.filter_app. simpl.
  destruct (String.eqb (originCity d) c); reflexivity.
Qed.

Lemma people_snoc (demands : list DemandRecord) (d : DemandRecord) :
  people (demands ++ [d]) = (people demands + partySize d)%Q.
Proof. unfold people. rewrite List.fold_left_app. reflexivity. Qed.

Lemma foldC_snoc {A B : Type} (f : A -> B -> Completion A) (l : list B) (x : B) :
  forall a, foldC f (l ++ [x]) a = bindC (foldC f l a) (fun a' => f a' x).
Proof.
  induction l as [|y l IH]; intros a; cbn [foldC app bindC].
  - destruct (f a x); reflexivity.
  - destruct (f a y) as [a' | m]; cbn [bindC]; [apply IH | reflexivity].
Qed.

Lemma plainCities_snoc (demands : list DemandRecord) (d : DemandRecord) :
  plainCities (demands ++ [d]) = plainCities demands && negb (inherited (originCity d)).
Proof. unfold plainCities. rewrite forallb_app. cbn. rewrite andb_true_r. reflexivity. Qed.

(** The first loop throws exactly when a record names an inherited
    member as its city: only keys that are no such names get an entry. *)
Lemma foldC_groupStep_returns (demands : list DemandRecord) :
  forall acc : gmap string DemandByCity,
    (forall key, acc !! key <> None -> inherited key = false) ->
    isReturned (foldC groupStep demands acc) = plainCities demands.
Proof.
  induction demands as [|d demands IH]; intros acc Hacc; [reflexivity|].
  cbn [foldC plainCities forallb]. unfold groupStep at 1. unfold get.
  destruct (acc !! originCity d) as [entry|] eqn:Hentry.
  - rewrite (Hacc (originCity d)) by (rewrite Hentry; discriminate).
    cbn [bindC negb andb]. apply IH.
    intros key Hkey. destruct (String.eqb_spec (originCity d) key) as [<- | Hne].
    + apply Hacc. rewrite Hentry. discriminate.
    + rewrite lookup_insert_ne in Hkey by exact Hne. apply Hacc. exact Hkey.
  - destruct (inherited (originCity d)) eqn:Hin; [reflexivity|].
    cbn [bindC negb andb]. apply IH.
    intros key Hkey. destruct (String.eqb_spec (originCity d) key) as [<- | Hne].
    + exact Hin.
    + rewrite lookup_insert_ne in Hkey by exact Hne. apply Hacc. exact Hkey.
Qed.

Lemma byCity_entry (demands : list DemandRecord) (groups : gmap string DemandByCity)
  (c : string) :
  byCity demands = Returned groups ->
  match groups !! c with
  | None => fromCity c demands = []
  | Some g =>
      city g = c /\ records g = fromCity c demands
      /\ totalPeople g = people (fromCity c demands)
      /\ fromCity c demands <> []
  end.
Proof.
  revert groups. induction demands as [|d demands IH] using List.rev_ind; intros groups.
  - unfold byCity. cbn. intros H. injection H as <-. rewrite lookup_empty. reflexivity.
  - unfold byCity in *. rewrite foldC_snoc.
    destruct (foldC groupStep demands ∅) as [acc | m]; cbn [bindC]; [| discriminate].
    specialize (IH acc eq_refl). rewrite fromCity_snoc.
    unfold groupStep, get.
    destruct (String.eqb_spec (originCity d) c) as [Heq | Hne].
    + rewrite Heq. destruct (acc !! c) as [g|].
      * intros H. injection H as <-. rewrite lookup_insert_eq.
        destruct IH as (Hc & Hr & Ht & _). cbn [city records totalPeople].
        rewrite Hr, Ht, people_snoc. repeat split; try assumption.
        intros H. apply List.app_eq_nil in H as [_ H]. discriminate.
      * destruct (inherited c); [discriminate|].
        intros H. injection H as <-. rewrite lookup_insert_eq.
        rewrite IH. cbn [city records totalPeople]. repeat split. discriminate.
    + rewrite List.app_nil_r.
      destruct (acc !! originCity d) as [g|].
      * intros H. injection H as <-. rewrite lookup_insert_ne by exact Hne. exact IH.
      * destruct (inherited (originCity d)); [discriminate|].
        intros H. injection H as <-. rewrite lookup_insert_ne by exact Hne. exact IH.
Qed.

Lemma payoutByCity_entry (price : Q) (demands : list DemandRecord) (c : string) :
  plainCities demands = true ->
  match payoutByCity price demands !! c with
  | None => fromCity c demands = []
  | Some (Amount p) =>
      (p == people (fromCity c demands) * price)%Q /\ fromCity c demands <> []
  | Some Garbled => False
  end.
Proof.
  induction demands as [|d demands IH] using List.rev_ind; intros Hplain.
  - unfold payoutByCity. simpl. rewrite lookup_empty. reflexivity.
  - rewrite plainCities_snoc in Hplain. apply andb_true_iff in Hplain as [Hrest Hd].
    apply negb_true_iff in Hd. specialize (IH Hrest).
    unfold payoutByCity in *. rewrite List.fold_left_app. cbn [List.fold_left].
    rewrite fromCity_snoc.
    set (acc := List.fold_left (payoutStep price) demands ∅) in *.
    unfold payoutStep, get. cbv zeta.
    destruct (String.eqb_spec (originCity d) c) as [Heq | Hne].
    + rewrite Heq in *. rewrite Hd. destruct (acc !! c) as [[p |]|].
      * rewrite lookup_insert_eq.
        split; [| intros H; apply List.app_eq_nil in H as [_ H]; discriminate].
        rewrite people_snoc. destruct IH as [Hp _].
        transitivity (people (fromCity c demands) * price + partySize d * price)%Q;
          [| ring].
        rewrite <- Hp.
        destruct (Qeq_bool p 0) eqn:Hzero; [| reflexivity].
        apply Qeq_bool_eq in Hzero. rewrite Hzero. reflexivity.
      * destruct IH.
      * rewrite lookup_insert_eq.
        split; [| intros H; apply List.app_eq_nil in H as [_ H]; discriminate].
        rewrite IH. unfold people. simpl. ring.
    + rewrite List.app_nil_r. rewrite Hd.
      destruct (acc !! originCity d) as [[p |]|];
        rewrite lookup_insert_ne by exact Hne; exact IH.
Qed.

(** The first loop of the view throws exactly when a record names a
    member of [Object.prototype] as its origin city, and the view is then
    not drawn. When it returns, for every origin city the group of the
    city and its payout exist exactly when the list has a record from that
    city; the group holds the records of the city in the order of the list
    and the sum of their parties, and the payout of the city is a number:
    the people of its group times the ticket price, for whole party sizes
    and prices whose total fare stays below 2^53. *)
Theorem city_groups_and_payouts (price : Q) (demands : list DemandRecord) (c : string) :
  isReturned (byCity demands) = plainCities demands
  /\ forall groups,
       byCity demands = Returned groups ->
       (groups !! c = None <-> fromCity c demands = [])
       /\ (payoutByCity price demands !! c = None <-> fromCity c demands = [])
       /\ (forall g,
             groups !! c = Some g ->
             city g = c /\ records g = fromCity c demands
             /\ totalPeople g = people (fromCity c demands))
       /\ (forall g,
             groups !! c = Some g ->
             exists p,
               payoutByCity price demands !! c = Some (Amount p)
               /\ (exact price demands -> (p == totalPeople g * price)%Q)).
Proof.
  assert (isReturned (byCity demands) = plainCities demands) as Hret.
  { apply (foldC_groupStep_returns demands ∅).
    intros key Hkey. rewrite lookup_empty in Hkey. congruence. }
  split; [exact Hret|].
  intros groups Hgroups.
  assert (plainCities demands = true) as Hplain by (rewrite <- Hret, Hgroups; reflexivity).
  pose proof (byCity_entry demands groups c Hgroups) as Hgroup.
  pose proof (payoutByCity_entry price demands c Hplain) as Hpay.
  destruct (groups !! c) as [g|];
    destruct (payoutByCity price demands !! c) as [[p |]|].
  - destruct Hgroup as (Hc & Hr & Ht & Hne). destruct Hpay as [Hp _].
    split; [split; [discriminate | intros H; contradiction]|].
    split; [split; [discriminate | intros H; contradiction]|].
    split.
    + intros g' H. injection H as <-. auto.
    + intros g' Hg'. injection Hg' as <-. exists p. split; [reflexivity|].
      intros _. rewrite Ht. exact Hp.
  - destruct Hpay.
  - destruct Hgroup as (_ & _ & _ & Hne). contradiction.
  - destruct Hpay as [_ Hsome]. contradiction.
  - destruct Hpay.
  - split; [tauto|]. split; [tauto|]. split; [discriminate | discriminate].
Qed.

End DataViewFacts.

(** ** Concrete runs of the further properties *)

Section MoreRuns.
Import Json Routing Orchestrator Sample Fixture.

(** A second request for village x, made a minute after the first, counted
    another minute later. *)
Lemma addDemand_raises_count_witness :
  fst (Demand.getDemandCountForVillage "x" (browser (clock + 120000) true)
         (snd (Demand.addDemand request (browser (clock + 60000) true) stored)))
  = Returned 2%nat.
Proof.
  rewrite (addDemand_raises_count (browser (clock + 60000) true)
             (browser (clock + 120000) true) stored request "x").
  - vm_compute. reflexivity.
  - vm_compute. reflexivity.
  - vm_compute. reflexivity.
Defined.

(** Demo data without [force] on the store that holds one request. *)
Lemma prepopulate_keeps_stored_demand_witness :
  Seed.prepopulateDemands plainLength dice twoVillages false (browser clock true) stored
  = (Returned tt, stored).
Proof.
  apply prepopulate_keeps_stored_demand. vm_compute. discriminate.
Defined.

(** Forced demo data for two villages over the store that holds one
    request: Omodos is counted at least twice and at most 20 times. *)
Lemma prepopulate_writes_plausible_data_witness :
  exists n,
    fst (Demand.getDemandCountForVillage "omodos" (browser clock true)
           (snd (Seed.prepopulateDemands plainLength dice twoVillages true
                   (browser clock true) stored)))
    = Returned n
    /\ (2 <= n <= 20)%nat.
Proof.
  destruct (prepopulate_writes_plausible_data plainLength dice twoVillages true
              (browser clock true) stored true) as (_ & _ & _ & Hcount).
  - vm_compute. reflexivity.
  - reflexivity.
  - reflexivity.
  - destruct (Hcount (fun t u a b => eq_refl) "omodos") as (n & Hn & Hlow & Hhigh);
      [right; left; reflexivity|].
    exists n. split; [exact Hn|]. split; [exact Hlow|].
    apply Hhigh. repeat constructor; simpl; intuition discriminate.
Defined.

(** A submission through the context on the store that holds one request,
    with the count on screen read from the ledger. *)
Lemma submitDemand_keeps_counts_witness :
  Demand.numberAt
    (PlainObject.get
       (fst (snd (Counts.submitDemand request (browser clock true)
                    ({[ "x" := Demand.Num 1 ]}, stored))))
       "x")
  = Some 2%nat.
Proof.
  pose proof (submitDemand_keeps_counts (browser clock true) {[ "x" := Demand.Num 1 ]} stored
                request "x") as H.
  destruct (Counts.submitDemand request (browser clock true)
              ({[ "x" := Demand.Num 1 ]}, stored))
    as [[fullRecord|m] [counts' store']] eqn:Hsubmit.
  - cbn [fst snd]. destruct H as (_ & Hstore & Hcounts & _).
    + vm_compute. reflexivity.
    + vm_compute. reflexivity.
    + rewrite Hcounts. unfold Demand.collection. rewrite Hstore.
      vm_compute in Hsubmit. injection Hsubmit as <- _ _.
      vm_compute. reflexivity.
  - vm_compute in Hsubmit. discriminate Hsubmit.
Defined.

(** The response with one itinerary that maps and one [null]: nothing is
    returned. *)
Lemma planJourney_all_or_nothing_witness :
  planJourney strict (fun _ => Responded mixedResponse) here (villageCoords kakopetria)
    (Some clock)
  = Returned [].
Proof.
  refine (proj2 (planJourney_all_or_nothing strict (fun _ => Responded mixedResponse)
                   here (villageCoords kakopetria) clock mixedResponse _
                   [rawItinerary 3600; JNull] eq_refl eq_refl eq_refl eq_refl) _).
  apply Exists_cons_tl. apply Exists_cons_hd. reflexivity.
Defined.

(** With the device location known, a village is selected: the lists are
    loading and its fetch is in flight. *)
Lemma loading_has_fetch_in_flight_witness :
  inflight (step (SetSelectedVillage (Some kakopetria)) located) <> ∅.
Proof.
  apply loading_has_fetch_in_flight; [| reflexivity].
  apply (runEnabled_reachable
           [GeolocationSuccess here; SetSelectedVillage (Some kakopetria)] initialWorld);
    [apply reachable_initial | reflexivity].
Defined.

(** A village selected in the initial state, where no origin is known. *)
Lemma select_without_origin_witness :
  inflight (step (SetSelectedVillage (Some kakopetria)) initialWorld) = ∅
  /\ routesToVillage (state (step (SetSelectedVillage (Some kakopetria)) initialWorld)) = [].
Proof.
  destruct (select_without_origin initialWorld kakopetria eq_refl eq_refl eq_refl)
    as (_ & Hto & _ & _ & Hin & _).
  split; [exact Hin | exact Hto].
Defined.

(** Kakopetria is selected with the device location known, the sheet is
    closed, and then the routes of Kakopetria arrive. *)
Lemma deselect_does_not_cancel_witness :
  let selected := step (SetSelectedVillage (Some kakopetria)) located in
  let settled :=
    step (FetchSettled 0 (Returned (listsOf (routesFor here kakopetria))))
      (step (SetSelectedVillage None) selected) in
  selectedVillage (state settled) = None
  /\ routesToVillage (state settled) = fst (listsOf (routesFor here kakopetria)).
Proof.
  cbv zeta.
  destruct (deselect_does_not_cancel
              (step (SetSelectedVillage (Some kakopetria)) located) 0
              {| origin := here; destination := kakopetria |}
              (fst (listsOf (routesFor here kakopetria)))
              (snd (listsOf (routesFor here kakopetria))) eq_refl eq_refl)
    as (_ & _ & _ & _ & _ & Hv & Hto & _).
  split; [exact Hv | exact Hto].
Defined.

(** Nicosia was chosen and Kakopetria selected without a device location;
    then the device location arrives. *)
Lemma location_arrival_refetches_witness :
  let before :=
    run [SetSelectedVillage (Some kakopetria); SetSelectedCity (Some "Nicosia")]
      initialWorld in
  inflight (step (GeolocationSuccess here) before) !! 1%nat
  = Some {| origin := here; destination := kakopetria |}.
Proof.
  cbv zeta.
  destruct (location_arrival_refetches
              (run [SetSelectedVillage (Some kakopetria); SetSelectedCity (Some "Nicosia")]
                 initialWorld) kakopetria here eq_refl) as (_ & _ & Hin & _).
  rewrite Hin. apply lookup_insert_eq.
Defined.

End MoreRuns.

(** ** Geometry codec: how many points *)

Section GroupFacts.
Import Polyline Groups.

Lemma skipn_nth_some (l : list Z) :
  forall i c, nth_error l i = Some c -> skipn i l = c :: skipn (S i) l.
Proof.
  induction l as [|x l IH]; intros [|i] c H; simpl in *; try discriminate.
  - injection H as ->. destruct l; reflexivity.
  - rewrite (IH i c H). reflexivity.
Qed.

Lemma skipn_nth_none (l : list Z) (i : nat) :
  nth_error l i = None -> skipn i l = [] /\ skipn (S i) l = [].
Proof.
  intros H. apply nth_error_None in H.
  split; apply List.skipn_all2; lia.
Qed.

Lemma skipn_in_range (l : list Z) (i : nat) :
  Nat.ltb i (List.length l) = true <-> skipn i l <> [].
Proof.
  rewrite Nat.ltb_lt. split.
  - intros Hlt H. apply (f_equal (@List.length Z)) in H.
    rewrite List.length_skipn in H. simpl in H. lia.
  - intros H. destruct (Nat.lt_ge_cases i (List.length l)) as [Hlt|Hge]; [exact Hlt|].
    exfalso. apply H. apply List.skipn_all2. exact Hge.
Qed.

(** The inner loop stops right after the first group of what is left of
    the string. *)
Lemma readGroup_afterGroup (encoded : list Z) :
  forall fuel index shift result index' result',
    readGroup fuel encoded index shift result = Some (index', result') ->
    skipn index' encoded = afterGroup (skipn index encoded).
Proof.
  induction fuel as [|fuel IH]; intros index shift result index' result' H; [discriminate|].
  simpl in H. unfold charCodeAt in H.
  destruct (nth_error encoded index) as [c|] eqn:Hc.
  - rewrite (skipn_nth_some encoded index c Hc). cbn [afterGroup minus63 geq] in *.
    unfold continues. destruct (32 <=? c - 63).
    + apply IH in H. exact H.
    + injection H as <- _. reflexivity.
  - cbn [minus63 geq] in H. injection H as <- _.
    destruct (skipn_nth_none encoded index Hc) as [-> ->]. reflexivity.
Qed.

Lemma groupsFrom_started (encoded : list Z) :
  groupsFrom true encoded = S (groups (afterGroup encoded)).
Proof.
  induction encoded as [|c rest IH]; [reflexivity|].
  simpl. destruct (continues c); [exact IH | reflexivity].
Qed.

Lemma groups_afterGroup (encoded : list Z) :
  encoded <> [] -> groups encoded = S (groups (afterGroup encoded)).
Proof.
  destruct encoded as [|c rest]; [congruence|]. intros _.
  unfold groups. simpl. destruct (continues c); [apply groupsFrom_started | reflexivity].
Qed.

Lemma decodeLoop_points (encoded : list Z) :
  forall fuel index lat lng points r,
    decodeLoop fuel encoded index lat lng points = Some r ->
    List.length r
    = (List.length points + (groups (skipn index encoded) + 1) / 2)%nat.
Proof.
  induction fuel as [|fuel IH]; intros index lat lng points r H; [discriminate|].
  simpl in H.
  destruct (Nat.ltb index (List.length encoded)) eqn:Hin.
  - apply skipn_in_range in Hin.
    destruct (readGroup fuel encoded index 0 0) as [[i1 r1]|] eqn:H1; [|discriminate].
    destruct (readGroup fuel encoded i1 0 0) as [[i2 r2]|] eqn:H2; [|discriminate].
    apply IH in H. rewrite H, List.length_app. cbn [List.length].
    apply readGroup_afterGroup in H1. apply readGroup_afterGroup in H2.
    rewrite (groups_afterGroup _ Hin), <- H1.
    destruct (skipn i1 encoded) as [|c rest] eqn:Hrest.
    + rewrite H2. simpl. lia.
    + rewrite (groups_afterGroup (c :: rest)) by discriminate. rewrite <- H2.
      replace (S (S (groups (skipn i2 encoded))) + 1)%nat
        with (groups (skipn i2 encoded) + 1 + 1 * 2)%nat by lia.
      rewrite Nat.div_add by lia. lia.
  - injection H as <-.
    assert (skipn index encoded = []) as ->.
    { apply List.skipn_all2. apply Nat.ltb_ge. exact Hin. }
    simpl. lia.
Qed.

(** The decoder returns one point for every two groups of the string,
    rounded up: a string cut off inside a latitude or before a longitude
    still gives a point for its last, incomplete pair. *)
Theorem decodePolyline_counts_groups (encoded : list Z) :
  List.length (decodePolyline encoded) = ((groups encoded + 1) / 2)%nat.
Proof.
  pose proof (decodeLoop_points encoded _ _ _ _ _ _ (decodePolyline_run encoded)) as H.
  simpl in H. exact H.
Qed.

End GroupFacts.
